(** * fir: event bindings, DOM event synthesis and error reconciliation

    A shallow embedding of the binding scanner of package [dom]
    ([Bindings.AddFile], [Bindings.TemplateNames]) and of the render path of
    package [fir] ([renderDOMEvents], [trackErrors], [buildTemplateValue]),
    followed by the properties the specification states about them.

    Conventions of the embedding:
    - a Go [string] is a [string] (a sequence of bytes);
    - a [*string] is an [option string]; dereferencing [None] is a run-time
      panic;
    - a Go map is a [gmap]; a [map[string]struct{}] is a [gset string];
      ranging over a map visits [map_to_list] / [elements] (Go fixes no
      order, the properties below do not depend on it);
    - a computation that may panic returns [exec A];
    - [klog.Errorf] calls are collected in a list of [LogEntry]. *)

From Stdlib Require Import ZArith String Ascii List Lia Bool.
From stdpp Require Import base strings list gmap sets fin_maps.

Set Default Proof Using "Type".

(** ** Run-time panics *)

Inductive exec (A : Type) : Type :=
| Ret (a : A)
| Panic (msg : string).
Arguments Ret {A} a.
Arguments Panic {A} msg.

Definition exec_bind {A B : Type} (m : exec A) (k : A -> exec B) : exec B :=
  match m with
  | Ret a => k a
  | Panic msg => Panic msg
  end.

Global Instance exec_mbind : MBind exec := fun A B k m => exec_bind m k.
Global Instance exec_mret : MRet exec := fun A a => Ret a.

(** [l[i]] on a slice: out of range is a run-time panic. *)
Definition index {A : Type} (l : list A) (i : nat) : exec A :=
  match l !! i with
  | Some x => Ret x
  | None => Panic "index out of range"
  end.

(** [*p] on a pointer. *)
Definition deref {A : Type} (p : option A) : exec A :=
  match p with
  | Some x => Ret x
  | None => Panic "invalid memory address or nil pointer dereference"
  end.

(** ** The functions of Go's [strings] and [slices] packages the code calls *)

Module GoStrings.

Fixpoint HasPrefix (s prefix : string) {struct prefix} : bool :=
  match prefix with
  | EmptyString => true
  | String p prefix' =>
      match s with
      | EmptyString => false
      | String c s' => if Ascii.eqb c p then HasPrefix s' prefix' else false
      end
  end.

Fixpoint drop_bytes (n : nat) (s : string) : string :=
  match n with
  | O => s
  | S n' => match s with
            | EmptyString => EmptyString
            | String _ s' => drop_bytes n' s'
            end
  end.

Definition TrimPrefix (s prefix : string) : string :=
  if HasPrefix s prefix then drop_bytes (String.length prefix) s else s.

(** [genSplit sep skip s]: the pieces of [s] between the leftmost,
    non-overlapping occurrences of the non-empty [sep]; [skip] counts the
    bytes of an occurrence that are still to be consumed. *)
Fixpoint genSplit (sep : string) (skip : nat) (s : string) : list string :=
  match s with
  | EmptyString => [EmptyString]
  | String c s' =>
      match skip with
      | S k => genSplit sep k s'
      | O =>
          if HasPrefix s sep
          then EmptyString :: genSplit sep (String.length sep - 1) s'
          else match genSplit sep 0 s' with
               | piece :: pieces => String c piece :: pieces
               | [] => [String c EmptyString]
               end
      end
  end.

(** [strings.SplitN(s, sep, -1)], for a non-empty [sep]. *)
Definition Split (s sep : string) : list string := genSplit sep 0 s.

Fixpoint Join (elems : list string) (sep : string) : string :=
  match elems with
  | [] => EmptyString
  | [e] => e
  | e :: rest => e +:+ sep +:+ Join rest sep
  end.

(** The byte [c] occurs in [s]. *)
Fixpoint has_byte (c : ascii) (s : string) : bool :=
  match s with
  | EmptyString => false
  | String d s' => Ascii.eqb d c || has_byte c s'
  end.

(** [slices.Contains] on strings. *)
Definition Contains (l : list string) (x : string) : bool :=
  existsb (String.eqb x) l.

End GoStrings.

(** ** Package [eventstate] *)

Module eventstate.
(** Modelled from the spec: the package [eventstate] is not among the
    sources; the specification gives the four lifecycle states, and the code
    prints a state with [%s] into the key that [AddFile] records under the
    words ok, error, pending and done. *)
Definition Type' := string.

(** Modelled from the spec: the constants of [eventstate]. *)
Definition OK : Type' := "ok".
Definition Error : Type' := "error".
Definition Pending : Type' := "pending".
Definition Done : Type' := "done".
End eventstate.

(** ** Dynamically typed values ([any]) *)

#[warnings="-register-all"]
Inductive any : Type :=
| Nil                                        (* the nil interface *)
| Str (s : string)                           (* string *)
| Int (n : Z)                                (* int *)
| MapStringAny (m : gmap string any)         (* map[string]any *)
| MapStringString (m : gmap string string)   (* map[string]string *)
| Other (tag : string) (payload : any).      (* any other dynamic type *)

(** [v == nil] on an interface value. *)
Definition isNil (v : any) : bool :=
  match v with
  | Nil => true
  | _ => false
  end.

Definition error := string.

(** A parsed template set, by what [ExecuteTemplate] writes for a name and a
    data value, or the error it returns. *)
Record Template := { ExecuteTemplate : string -> any -> string + error }.

(** ** Package [dom] *)

Module dom.
Import GoStrings.

Record Event := {
  Type' : option string;
  Target : option string;
  Detail : any;
  ID : string;
  State : eventstate.Type';
}.

Record Attribute := { Key : string; Val : string }.

(** An element node, by its attributes; a document, by its elements in the
    order [doc.Find("*").Each] visits them. *)
Definition Node := list Attribute.
Definition Document := list Node.

Definition in_range (lo hi : nat) (c : ascii) : bool :=
  (lo <=? nat_of_ascii c) && (nat_of_ascii c <=? hi).

(** One byte of the class [[ A-Za-z0-9\-:]]. *)
Definition templateNameByte (c : ascii) : bool :=
  Ascii.eqb c " " || in_range 65 90 c || in_range 97 122 c
  || in_range 48 57 c || Ascii.eqb c "-" || Ascii.eqb c ":".

(** [templateNameRegex.MatchString], for [^[ A-Za-z0-9\-:]*$]: every byte is
    in the class (a byte of a multi-byte rune is not). *)
Fixpoint templateNameRegex (s : string) : bool :=
  match s with
  | EmptyString => true
  | String c s' => templateNameByte c && templateNameRegex s'
  end.

Record Bindings := {
  id : string;
  tmpl : option Template;
  eventTemplates : gmap string (gset string);
}.

Definition RouteBindings (id : string) (tmpl : option Template) : Bindings :=
  {| id := id; tmpl := tmpl; eventTemplates := ∅ |}.

(** What [klog.Errorf] is called with. *)
Inductive LogEntry :=
| eventFormatError (eventns : string)
| invalidTemplateName (templateName : string).

(** [continue] after logging [e]: the table is as it was. *)
Definition continue_with (tbl : gmap string (gset string)) (e : LogEntry)
  : exec (gmap string (gset string) * list LogEntry) :=
  Ret (tbl, [e]).

(** The statements of the attribute loop from the split on [::] on
    (lines 76 to 125), for the namespace [eventns] left once the modifiers
    are dropped. *)
Definition bindEventns (tbl : gmap string (gset string)) (eventns : string)
  : exec (gmap string (gset string) * list LogEntry) :=
  let eventnsParts := Split eventns "::" in
  if length eventnsParts =? 0 then Ret (tbl, [])
  else if 2 <? length eventnsParts
  then continue_with tbl (eventFormatError eventns)
  else
    eventID ← index eventnsParts 0;
    let eventIDParts := Split eventID ":" in
    if negb (length eventIDParts =? 2)
    then continue_with tbl (eventFormatError eventns)
    else
      st ← index eventIDParts 1;
      if negb (Contains ["ok"; "error"; "pending"; "done"] st)
      then continue_with tbl (eventFormatError eventns)
      else if (length eventnsParts =? 2) && negb (Contains ["ok"; "error"] st)
      then continue_with tbl (eventFormatError eventns)
      else
        templateName ←
          (if length eventnsParts =? 2 then index eventnsParts 2
           else Ret "-");
        let templates := default ∅ (tbl !! eventID) in
        if negb (templateNameRegex templateName)
        then continue_with tbl (invalidTemplateName templateName)
        else Ret (<[eventID := {[templateName]} ∪ templates]> tbl, []).

(** The body of the loop over the attributes of a node, for one
    attribute. *)
Definition addAttr (tbl : gmap string (gset string)) (a : Attribute)
  : exec (gmap string (gset string) * list LogEntry) :=
  if HasPrefix (Key a) "@fir:" || HasPrefix (Key a) "x-on:fir:" then
    let eventns := TrimPrefix (Key a) "@fir:" in
    let eventns := TrimPrefix eventns "x-on:fir:" in
    let eventnsParts := Split eventns "." in
    if 3 <? length eventnsParts
    then continue_with tbl (eventFormatError eventns)
    else
      eventns ←
        (if 0 <? length eventnsParts then index eventnsParts 0
         else Ret eventns);
      bindEventns tbl eventns
  else Ret (tbl, []).

(** The outcome of a scan: the table and the log when it stopped, and the
    panic that stopped it, if one did. *)
Record Scan := {
  table : gmap string (gset string);
  logged : list LogEntry;
  panicked : option string;
}.

Fixpoint addAttrs (tbl : gmap string (gset string)) (log : list LogEntry)
    (attrs : list Attribute) : Scan :=
  match attrs with
  | [] => {| table := tbl; logged := log; panicked := None |}
  | a :: attrs' =>
      match addAttr tbl a with
      | Ret (tbl', es) => addAttrs tbl' (log ++ es) attrs'
      | Panic msg => {| table := tbl; logged := log; panicked := Some msg |}
      end
  end.

Fixpoint addNodes (tbl : gmap string (gset string)) (log : list LogEntry)
    (nodes : Document) : Scan :=
  match nodes with
  | [] => {| table := tbl; logged := log; panicked := None |}
  | node :: nodes' =>
      let s := addAttrs tbl log node in
      match panicked s with
      | None => addNodes (table s) (logged s) nodes'
      | Some _ => s
      end
  end.

(** [AddFile], for what [goquery.NewDocumentFromReader] returns on the
    reader. *)
Definition AddFile (b : Bindings) (rd : Document + error) : Bindings * Scan :=
  match rd with
  | inr err =>
      (b, {| table := eventTemplates b; logged := []; panicked := Some err |})
  | inl doc =>
      let s := addNodes (eventTemplates b) [] doc in
      ({| id := id b; tmpl := tmpl b; eventTemplates := table s |}, s)
  end.

Definition TemplateNames (b : Bindings) (eventIDWithState : string)
  : list string :=
  elements (default ∅ (eventTemplates b !! eventIDWithState)).

End dom.

(** ** Package [pubsub] *)

Module pubsub.
(** Modelled from the spec: the declaration of [pubsub.Event] is not among
    the sources; these are the fields of a bus event the specification lists
    and the render path reads, pointers where the code dereferences them. *)
Record Event := {
  ID : option string;
  State : eventstate.Type';
  Target : option string;
  Detail : any;
  SessionID : option string;
}.
End pubsub.

(** ** Package [fir]: the render path of controller.go *)

Module fir.
Import GoStrings.

(** The parts of a route the render path uses. The cache is a
    [go-cache] store: an entry that has expired is absent from it. *)
Record route := {
  bindings : dom.Bindings;
  template : option Template;
  cache : gmap string any;
}.

Record RouteContext := { ctx_route : route }.

Definition fir (parts : list string) : option string :=
  Some (Join ("fir" :: parts) ":").

(** Calls into the template engine and the minifier, in the order made. *)
Inductive Call :=
| callExecuteTemplate (name : string) (data : any)
| callMinify (raw : string).

Record traced (A : Type) := Traced { calls : list Call; outcome : exec A }.
Arguments Traced {A} calls outcome.
Arguments calls {A} t.
Arguments outcome {A} t.

Definition traced_bind {A B : Type} (m : traced A) (k : A -> traced B)
  : traced B :=
  match outcome m with
  | Ret a => Traced (calls m ++ calls (k a)) (outcome (k a))
  | Panic msg => Traced (calls m) (Panic msg)
  end.

#[global] Instance traced_mbind : MBind traced :=
  fun A B k m => traced_bind m k.
#[global] Instance traced_mret : MRet traced := fun A a => Traced [] (Ret a).

Definition lift {A : Type} (m : exec A) : traced A := Traced [] m.

(** [data.(string)]: the unchecked type assertion. *)
Definition assertString (data : any) : exec string :=
  match data with
  | Str s => Ret s
  | _ => Panic "interface conversion: interface {} is not string"
  end.

Section render.
(** The HTML minifier behind [m.Reader] and [io.Copy]: the minified text,
    or the error of the copy. *)
Variable minify : string -> string + error.
(** [newRouteDOMContext], which is not among the sources. *)
Variable newRouteDOMContext : RouteContext -> gmap string any -> any.

Definition execute (t : Template) (name : string) (data : any)
  : traced (string + error) :=
  Traced [callExecuteTemplate name data] (Ret (ExecuteTemplate t name data)).

Definition minified (raw : string) : traced (string + error) :=
  Traced [callMinify raw] (Ret (minify raw)).

(** What a render returns for the raw text [raw]: its minified form, or the
    error of the minifier. *)
Definition minifiedOrError (raw : string) : string * option error :=
  match minify raw with
  | inl value => (value, None)
  | inr err => ("", Some err)
  end.

Definition buildTemplateValue (t : option Template) (name : string)
    (data : any) : traced (string * option error) :=
  match t with
  | None => mret ("", None)
  | Some t =>
      if String.eqb name "" then mret ("", None)
      else
        dataBuf ←
          (if String.eqb name "_fir_html"
           then s ← lift (assertString data); mret (inl s)
           else execute t name data);
        match dataBuf with
        | inr err => mret ("", Some err)
        | inl raw =>
            r ← minified raw;
            match r with
            | inr err => mret ("", Some err)
            | inl value => mret (value, None)
            end
        end
  end.

(** The event that carries the detail of the bus event unrendered: the
    literal of the no-fragment case of [renderDOMEvents] and of the
    fallback of [trackErrors]. *)
Definition rawEvent (id : string) (pubsubEvent : pubsub.Event)
    (eventIDWithState : string) : dom.Event :=
  {| dom.ID := id;
     dom.State := pubsub.State pubsubEvent;
     dom.Type' := fir [eventIDWithState];
     dom.Target := pubsub.Target pubsubEvent;
     dom.Detail := pubsub.Detail pubsubEvent |}.

(** [Bindings.Events] log lines of [renderDOMEvents] are not kept: the
    body of the loop over the template names gives the event it appends,
    or none where it continues. *)
Definition renderTemplate (ctx : RouteContext) (pubsubEvent : pubsub.Event)
    (eventIDWithState : string) (templateName : string)
  : exec (option dom.Event) :=
  if String.eqb templateName "-" then
    id ← deref (pubsub.ID pubsubEvent);
    Ret (Some (rawEvent id pubsubEvent eventIDWithState))
  else
    let eventType := fir [eventIDWithState; templateName] in
    let shaped : option any :=
      if String.eqb (pubsub.State pubsubEvent) eventstate.Error
         && negb (isNil (pubsub.Detail pubsubEvent))
      then match pubsub.Detail pubsubEvent with
           | MapStringAny errs =>
               Some (MapStringAny {[ "fir" := newRouteDOMContext ctx errs ]})
           | _ => None
           end
      else Some (pubsub.Detail pubsubEvent) in
    match shaped with
    | None => Ret None
    | Some templateData =>
        r ← outcome (buildTemplateValue (template (ctx_route ctx))
                       templateName templateData);
        match r with
        | (_, Some err) => Ret None
        | (value, None) =>
            if String.eqb (pubsub.State pubsubEvent) eventstate.Error
               && String.eqb value ""
            then Ret None
            else Ret (Some {| dom.ID := eventIDWithState;
                              dom.State := pubsub.State pubsubEvent;
                              dom.Type' := eventType;
                              dom.Target := pubsub.Target pubsubEvent;
                              dom.Detail := Str value |})
        end
    end.

Fixpoint renderTemplates (ctx : RouteContext) (pubsubEvent : pubsub.Event)
    (eventIDWithState : string) (templateNames : list string)
    (events : list dom.Event) : exec (list dom.Event) :=
  match templateNames with
  | [] => Ret events
  | templateName :: rest =>
      e ← renderTemplate ctx pubsubEvent eventIDWithState templateName;
      renderTemplates ctx pubsubEvent eventIDWithState rest
        (events ++ option_list e)
  end.

(** What a call leaves: the session cache after it, and the events it
    returns unless it panicked. *)
Record Tracked := {
  cache_after : gmap string any;
  returned : exec (list dom.Event);
}.

(** The first loop of [trackErrors]. *)
Fixpoint setNewErrors (events : list dom.Event)
    (newErrors : gmap string string) (newEvents : list dom.Event)
  : exec (gmap string string * list dom.Event) :=
  match events with
  | [] => Ret (newErrors, newEvents)
  | event :: rest =>
      if String.eqb (dom.State event) eventstate.OK
      then setNewErrors rest newErrors (newEvents ++ [event])
      else
        ty ← deref (dom.Type' event);
        tg ← deref (dom.Target event);
        setNewErrors rest (<[ty := tg]> newErrors) (newEvents ++ [event])
  end.

(** The event of the second loop of [trackErrors] that clears a type no
    longer active. *)
Definition clearEvent (k v : string) : dom.Event :=
  {| dom.Type' := Some k;
     dom.Target := Some v;
     dom.Detail := Str "";
     dom.ID := "";
     dom.State := "" |}.

(** The second loop of [trackErrors], over the entries of [prevErrors]. *)
Fixpoint unsetPrevErrors (prevErrors : list (string * string))
    (newErrors : gmap string string) (newEvents : list dom.Event)
  : list dom.Event :=
  match prevErrors with
  | [] => newEvents
  | (k, v) :: rest =>
      match newErrors !! k with
      | Some _ => unsetPrevErrors rest newErrors newEvents
      | None =>
          unsetPrevErrors rest newErrors (newEvents ++ [clearEvent k v])
      end
  end.

(** The previous errors of a session, as [trackErrors] loads them from
    the cache. *)
Definition loadPrevErrors (cache0 : gmap string any) (sessionID : string)
  : exec (gmap string string) :=
  match cache0 !! sessionID with
  | Some (MapStringString m) => Ret m
  | Some _ => Panic "fir: cache value is not a map[string]string"
  | None => Ret ∅
  end.

Definition trackErrors (ctx : RouteContext) (pubsubEvent : pubsub.Event)
    (events : list dom.Event) : Tracked :=
  let cache0 := cache (ctx_route ctx) in
  match deref (pubsub.SessionID pubsubEvent) with
  | Panic msg => {| cache_after := cache0; returned := Panic msg |}
  | Ret sessionID =>
      match prevErrors ← loadPrevErrors cache0 sessionID;
            r ← setNewErrors events ∅ [];
            Ret (prevErrors, r) with
      | Panic msg => {| cache_after := cache0; returned := Panic msg |}
      | Ret (prevErrors, (newErrors, newEvents)) =>
          let newEvents :=
            unsetPrevErrors (map_to_list prevErrors) newErrors newEvents in
          {| cache_after :=
               <[sessionID := MapStringString newErrors]> cache0;
             returned :=
               if length newEvents =? 0 then
                 id ← deref (pubsub.ID pubsubEvent);
                 let eventIDWithState :=
                   id +:+ ":" +:+ pubsub.State pubsubEvent in
                 Ret (newEvents ++
                        [rawEvent id pubsubEvent eventIDWithState])
               else Ret newEvents |}
      end
  end.

Definition renderDOMEvents (ctx : RouteContext) (pubsubEvent : pubsub.Event)
  : Tracked :=
  match
    id ← deref (pubsub.ID pubsubEvent);
    let eventIDWithState := id +:+ ":" +:+ pubsub.State pubsubEvent in
    let templateNames :=
      dom.TemplateNames (bindings (ctx_route ctx)) eventIDWithState in
    renderTemplates ctx pubsubEvent eventIDWithState templateNames []
  with
  | Panic msg =>
      {| cache_after := cache (ctx_route ctx); returned := Panic msg |}
  | Ret events => trackErrors ctx pubsubEvent events
  end.

End render.
End fir.

(** ** Package [fir]: the earlier [buildTemplateValue] of the unnamed source
    file part_000 *)

Module part_000.
Import fir.

Section render.
Variable minify : string -> string + error.

Definition buildTemplateValue (t : option Template) (name : string)
    (data : any) : traced (string * option error) :=
  dataBuf ←
    (if String.eqb name "_fir_html"
     then s ← lift (assertString data); mret (inl s)
     else t' ← lift (deref t); execute t' name data);
  match dataBuf with
  | inr err => mret ("", Some err)
  | inl raw =>
      r ← minified minify raw;
      match r with
      | inr err => mret ("", Some err)
      | inl value => mret (value, None)
      end
  end.
End render.
End part_000.

(** A candidate event [trackErrors] can record: an event in a state other
    than ok is dereferenced at its type and its target. *)
Definition trackable (e : dom.Event) : Prop :=
  dom.State e = eventstate.OK \/
  (is_Some (dom.Type' e) /\ is_Some (dom.Target e)).


(** Every template name in the table is of the class the scanner admits. *)
Definition admitted (tbl : gmap string (gset string)) : Prop :=
  forall key name,
    name ∈ default ∅ (tbl !! key) -> dom.templateNameRegex name = true.

(** A route context with the given binding table, template set and session
    cache, and a bus event, for the examples. *)
Definition exampleCtx (tbl : gmap string (gset string))
    (t : option Template) (cache0 : gmap string any) : fir.RouteContext :=
  {| fir.ctx_route :=
       {| fir.bindings :=
            {| dom.id := "route"; dom.tmpl := t; dom.eventTemplates := tbl |};
          fir.template := t;
          fir.cache := cache0 |} |}.

Definition exampleEvent (id : string) (st : eventstate.Type')
    (target : option string) (detail : any) : pubsub.Event :=
  {| pubsub.ID := Some id;
     pubsub.State := st;
     pubsub.Target := target;
     pubsub.Detail := detail;
     pubsub.SessionID := Some "session-1" |}.

(** A template set with the one template [name-error], a minifier that finds
    nothing to compact, and a rendering context that is the error map
    itself, for the examples. *)
Definition exampleTemplate : Template :=
  {| ExecuteTemplate := fun name _ =>
       if String.eqb name "name-error" then inl "<span>required</span>"
       else inr ("html/template: " +:+ name +:+ " is undefined") |}.

Definition exampleMinify (raw : string) : string + error := inl raw.

Definition exampleDOMContext (_ : fir.RouteContext) (errs : gmap string any)
  : any := MapStringAny errs.



(** An attribute by its key, for the examples. *)
Definition attr (k : string) : dom.Attribute :=
  {| dom.Key := k; dom.Val := "" |}.

(** ** Package [fir]: [domEvents] of the unnamed source file part_000 *)

Module pubsub_part_000.
(** Modelled from the spec: the declaration of [pubsub.Event] that
    part_000 was written against is not among the sources; these are the
    fields [domEvents] reads, the template name being the optional override
    the specification lists. *)
Record Event := {
  Type' : option string;
  Target : option string;
  Data : any;
  TemplateName : option string;
}.
End pubsub_part_000.

Module part_000_events.
Import fir.

Record DOMEvent := {
  Type' : option string;
  Target : option string;
  Detail : any;
}.

Section domEvents.
Variable minify : string -> string + error.
(** [json.Marshal] on the events: the bytes, or its error. *)
Variable Marshal : list DOMEvent -> string + error.

(** The loop of [domEvents] over the bus events. *)
Fixpoint domEventsLoop (t : option Template)
    (pubsubEvents : list pubsub_part_000.Event) (events : list DOMEvent)
  : exec (list DOMEvent) :=
  match pubsubEvents with
  | [] => Ret events
  | e :: rest =>
      match pubsub_part_000.TemplateName e with
      | None =>
          domEventsLoop t rest
            (events ++ [{| Type' := pubsub_part_000.Type' e;
                           Target := pubsub_part_000.Target e;
                           Detail := pubsub_part_000.Data e |}])
      | Some name =>
          r ← outcome (part_000.buildTemplateValue minify t name
                         (pubsub_part_000.Data e));
          match r with
          | (_, Some err) => domEventsLoop t rest events
          | (detail, None) =>
              domEventsLoop t rest
                (events ++ [{| Type' := pubsub_part_000.Type' e;
                               Target := pubsub_part_000.Target e;
                               Detail := Str detail |}])
          end
      end
  end.

(** [domEvents]: the JSON of the events, or nil when it cannot be
    marshalled. *)
Definition domEvents (t : option Template)
    (pubsubEvents : list pubsub_part_000.Event) : exec (option string) :=
  events ← domEventsLoop t pubsubEvents [];
  match Marshal events with
  | inr err => Ret None
  | inl data => Ret (Some data)
  end.

End domEvents.

(** The DOM event a bus event without a template name becomes. *)
Definition plain (e : pubsub_part_000.Event) : DOMEvent :=
  {| Type' := pubsub_part_000.Type' e;
     Target := pubsub_part_000.Target e;
     Detail := pubsub_part_000.Data e |}.

End part_000_events.

(** ** Package [errors] *)

Module errors.

Section fields.
(** The dynamic values behind the [error] interface, with their [Error]
    method and what [errors.Unwrap] finds in them; an interface value is
    [None] when nil. *)
Context {E : Type}.
Variable Error : E -> string.
Variable Unwrap : E -> option E.

(** The loop of [Fields.Map]. *)
Fixpoint MapLoop (entries : list (string * option E))
    (m : gmap string string) : exec (gmap string string) :=
  match entries with
  | [] => Ret m
  | (field, err) :: rest =>
      e ← deref err;
      MapLoop rest (<[field := Error e]> m)
  end.

Definition Map (f : gmap string (option E)) : exec (gmap string string) :=
  MapLoop (map_to_list f) ∅.

(** The loop of [Fields.Error]. *)
Fixpoint ErrorLoop (entries : list (string * option E)) (errs : list string)
  : exec (list string) :=
  match entries with
  | [] => Ret errs
  | (_, err) :: rest =>
      e ← deref err;
      ErrorLoop rest (errs ++ [Error e])
  end.

Definition FieldsError (f : gmap string (option E)) : exec string :=
  errs ← ErrorLoop (map_to_list f) [];
  Ret (GoStrings.Join errs ", ").

Definition User (err : option E) : option E :=
  match err ≫= Unwrap with
  | Some wrappedUserError => Some wrappedUserError
  | None => err
  end.

End fields.
End errors.

(** A marshaller that tells only the empty list apart, a bus event of
    part_000, and errors that are their own message, for the examples. *)
Definition exampleMarshal (events : list part_000_events.DOMEvent)
  : string + error :=
  inl (if length events =? 0 then "null" else "[...]").

Definition exampleBusEvent (ty : string) (data : any)
    (templateName : option string) : pubsub_part_000.Event :=
  {| pubsub_part_000.Type' := Some ty;
     pubsub_part_000.Target := None;
     pubsub_part_000.Data := data;
     pubsub_part_000.TemplateName := templateName |}.

Definition exampleError (e : string) : string := e.

Definition exampleUnwrap (e : string) : option string := None.

(** A candidate that records nothing under the type [ty]: it is ok, or
    its type is another. *)
Definition records_not (ty : string) (e : dom.Event) : Prop :=
  dom.State e = eventstate.OK \/ dom.Type' e <> Some ty.

(** The target [tg] is that of the last candidate in a state other than ok
    whose type is [ty]. *)
Definition recorded_last (events : list dom.Event) (ty tg : string) : Prop :=
  exists before e after,
    events = before ++ e :: after /\
    dom.State e <> eventstate.OK /\
    dom.Type' e = Some ty /\ dom.Target e = Some tg /\
    Forall (records_not ty) after.

(** One table holds at least the bindings of another. *)
Definition table_le (t1 t2 : gmap string (gset string)) : Prop :=
  forall key names,
    t1 !! key = Some names ->
    exists names', t2 !! key = Some names' /\ names ⊆ names'.

(** Every entry of the session cache is a map[string]string. *)
Definition cache_wf (c : gmap string any) : Prop :=
  forall sid v, c !! sid = Some v -> exists m, v = MapStringString m.

(** * Properties *)

(** ** Strings *)

Section string_facts.
Import GoStrings.

Lemma append_cons c s t : String c s +:+ t = String c (s +:+ t).
Proof. reflexivity. Qed.

Lemma append_nil_l t : "" +:+ t = t.
Proof. reflexivity. Qed.

Lemma has_byte_app c s t :
  has_byte c (s +:+ t) = has_byte c s || has_byte c t.
Proof.
  induction s as [|d s IH]; [reflexivity|].
  rewrite append_cons. cbn [has_byte]. rewrite IH. apply orb_assoc.
Qed.

Lemma HasPrefix_app p s : HasPrefix (p +:+ s) p = true.
Proof.
  induction p as [|c p IH]; [reflexivity|].
  rewrite append_cons. cbn [HasPrefix]. by rewrite Ascii.eqb_refl.
Qed.

Lemma drop_bytes_app p s : drop_bytes (String.length p) (p +:+ s) = s.
Proof. induction p as [|c p IH]; [reflexivity|]. by rewrite append_cons. Qed.

Lemma TrimPrefix_app p s : TrimPrefix (p +:+ s) p = s.
Proof. unfold TrimPrefix. by rewrite HasPrefix_app, drop_bytes_app. Qed.

(** A first byte that differs rules the prefix out. *)
Lemma HasPrefix_head_ne c d s p :
  Ascii.eqb c d = false -> HasPrefix (String c s) (String d p) = false.
Proof. intros H. cbn [HasPrefix]. by rewrite H. Qed.

(** Without the first byte of the separator there is nothing to split. *)
Lemma genSplit_absent c sep s :
  has_byte c s = false -> genSplit (String c sep) 0 s = [s].
Proof.
  induction s as [|d s IH]; [reflexivity|].
  cbn [has_byte]. intros [Hd Hs]%orb_false_elim.
  cbn [genSplit]. rewrite HasPrefix_head_ne by done.
  by rewrite IH.
Qed.

Lemma genSplit_nonempty sep k s : genSplit sep k s <> [].
Proof.
  revert k. induction s as [|d s IH]; intros k; [done|].
  cbn [genSplit]. destruct k as [|k]; [|apply IH].
  destruct (HasPrefix _ _); [done|].
  by destruct (genSplit sep 0 s).
Qed.

(** Splitting on a one-byte separator at its first occurrence. *)
Lemma genSplit_byte_app c a r :
  has_byte c a = false ->
  genSplit (String c "") 0 (a +:+ String c r)
  = a :: genSplit (String c "") 0 r.
Proof.
  induction a as [|d a IH].
  - intros _. rewrite append_nil_l. cbn [genSplit HasPrefix].
    by rewrite Ascii.eqb_refl.
  - cbn [has_byte]. intros [Hd Ha]%orb_false_elim.
    rewrite append_cons. cbn [genSplit].
    rewrite HasPrefix_head_ne by done. by rewrite IH.
Qed.

Lemma Split_absent c sep s :
  has_byte c s = false -> Split s (String c sep) = [s].
Proof. apply genSplit_absent. Qed.

Lemma Split_byte_app c a r :
  has_byte c a = false ->
  Split (a +:+ String c r) (String c "") = a :: Split r (String c "").
Proof. apply genSplit_byte_app. Qed.


(** Trimming a prefix that has no dot leaves what follows the first dot
    alone. *)
Lemma HasPrefix_before_dot p ns r :
  has_byte "." p = false ->
  HasPrefix (ns +:+ String "." r) p = HasPrefix ns p.
Proof.
  revert ns. induction p as [|c p IH]; intros ns Hp; [reflexivity|].
  cbn [has_byte] in Hp. apply orb_false_elim in Hp as [Hc Hp].
  destruct ns as [|d ns].
  - rewrite append_nil_l. cbn [HasPrefix].
    by rewrite Ascii.eqb_sym, Hc.
  - rewrite append_cons. cbn [HasPrefix].
    destruct (Ascii.eqb d c); [by apply IH|done].
Qed.

Lemma drop_bytes_before_dot p ns r :
  HasPrefix ns p = true ->
  drop_bytes (String.length p) (ns +:+ r)
  = drop_bytes (String.length p) ns +:+ r.
Proof.
  revert ns. induction p as [|c p IH]; intros ns H; [reflexivity|].
  destruct ns as [|d ns]; [done|].
  cbn [HasPrefix] in H. destruct (Ascii.eqb d c); [|done].
  rewrite append_cons. cbn [String.length drop_bytes]. by apply IH.
Qed.

Lemma TrimPrefix_before_dot p ns r :
  has_byte "." p = false ->
  TrimPrefix (ns +:+ String "." r) p = TrimPrefix ns p +:+ String "." r.
Proof.
  intros Hp. unfold TrimPrefix. rewrite HasPrefix_before_dot by done.
  destruct (HasPrefix ns p) eqn:H; [|done].
  by apply drop_bytes_before_dot.
Qed.

Lemma has_byte_drop_bytes c n s :
  has_byte c s = false -> has_byte c (drop_bytes n s) = false.
Proof.
  revert s. induction n as [|n IH]; intros s H; [done|].
  destruct s as [|d s]; [done|].
  cbn [has_byte] in H. apply orb_false_elim in H as [_ H].
  by apply IH.
Qed.

Lemma has_byte_TrimPrefix c s p :
  has_byte c s = false -> has_byte c (TrimPrefix s p) = false.
Proof.
  intros H. unfold TrimPrefix.
  destruct (HasPrefix s p); [by apply has_byte_drop_bytes|done].
Qed.
End string_facts.

(** ** The binding scanner *)

Section scanner.
Import GoStrings dom.

Lemma index_past_end {A} (l : list A) i : length l <= i -> index l i = Panic "index out of range".
Proof. intros H. unfold index. by rewrite lookup_ge_None_2. Qed.

Lemma index_first {A} (x : A) l : index (x :: l) 0 = Ret x.
Proof. reflexivity. Qed.

Lemma index_second {A} (x y : A) l : index (x :: y :: l) 1 = Ret y.
Proof. reflexivity. Qed.

Lemma bind_Ret {A B} (a : A) (k : A -> exec B) : Ret a ≫= k = k a.
Proof. reflexivity. Qed.

Lemma bind_Panic {A B} msg (k : A -> exec B) : Panic msg ≫= k = Panic msg.
Proof. reflexivity. Qed.

(** Two colon-free strings around a colon: a prefix of the same shape
    matches piece by piece. *)
Lemma HasPrefix_colon a b p q :
  has_byte ":" a = false -> has_byte ":" p = false ->
  HasPrefix (a +:+ String ":" b) (p +:+ String ":" q) = true ->
  a = p /\ HasPrefix b q = true.
Proof.
  revert a. induction p as [|c p IH]; intros a Ha Hp H.
  - rewrite append_nil_l in H. destruct a as [|d a].
    + rewrite append_nil_l in H. cbn [HasPrefix] in H.
      rewrite Ascii.eqb_refl in H. done.
    + rewrite append_cons in H. cbn [HasPrefix has_byte] in *.
      apply orb_false_elim in Ha as [Hd _]. by rewrite Hd in H.
  - cbn [has_byte] in Hp. apply orb_false_elim in Hp as [Hc Hp].
    rewrite append_cons in H. destruct a as [|d a].
    + rewrite append_nil_l in H. cbn [HasPrefix] in H.
      rewrite Ascii.eqb_sym, Hc in H. done.
    + rewrite append_cons in H. cbn [HasPrefix has_byte] in *.
      apply orb_false_elim in Ha as [Hd Ha].
      destruct (Ascii.eqb_spec d c) as [->|]; [|done].
      destruct (IH a Ha Hp H) as [-> ?]. done.
Qed.





(** The invalid-template-name entry is never logged: the name checked is
    always the no-fragment name. *)
Lemma bindEventns_log tbl eventns tbl' es :
  bindEventns tbl eventns = Ret (tbl', es) ->
  es = [] \/ es = [eventFormatError eventns] /\ tbl' = tbl.
Proof.
  unfold bindEventns, continue_with.
  destruct (length (Split eventns "::") =? 0) eqn:H0;
    [intros; simplify_eq; by left|].
  destruct (2 <? length (Split eventns "::")) eqn:H2;
    [intros; simplify_eq; by right|].
  destruct (index (Split eventns "::") 0) as [eventID|]; [|done].
  rewrite bind_Ret.
  destruct (negb (length (Split eventID ":") =? 2));
    [intros; simplify_eq; by right|].
  destruct (index (Split eventID ":") 1) as [st|]; [|done].
  rewrite bind_Ret.
  destruct (negb (Contains ["ok"; "error"; "pending"; "done"] st));
    [intros; simplify_eq; by right|].
  destruct (_ && _); [intros; simplify_eq; by right|].
  destruct (length (Split eventns "::") =? 2) eqn:H2'.
  - apply Nat.eqb_eq in H2'. rewrite index_past_end by lia. done.
  - rewrite bind_Ret. change (templateNameRegex "-") with true.
    cbn [negb]. intros; simplify_eq; by left.
Qed.

Lemma addAttr_log tbl a tbl' es :
  addAttr tbl a = Ret (tbl', es) ->
  forall templateName, invalidTemplateName templateName ∉ es.
Proof.
  unfold addAttr, continue_with. intros H templateName Hin.
  destruct (_ || _); [|simplify_eq; by apply not_elem_of_nil in Hin].
  destruct (3 <? _).
  { simplify_eq. by apply list_elem_of_singleton in Hin. }
  destruct (if 0 <? _ then _ else _) as [eventns|]; [|done].
  rewrite bind_Ret in H.
  apply bindEventns_log in H as [->|[-> _]].
  - by apply not_elem_of_nil in Hin.
  - by apply list_elem_of_singleton in Hin.
Qed.

(** What the two [TrimPrefix] calls leave of a key whose namespace [ns]
    is followed by modifiers. *)
Lemma eventns_shape prefix ns mods :
  prefix = "@fir:" \/ prefix = "x-on:fir:" ->
  has_byte "." ns = false ->
  exists ns',
    has_byte "." ns' = false /\
    TrimPrefix (TrimPrefix (prefix +:+ ns +:+ String "." mods) "@fir:")
      "x-on:fir:" = ns' +:+ String "." mods /\
    TrimPrefix (TrimPrefix (prefix +:+ ns) "@fir:") "x-on:fir:" = ns'.
Proof.
  intros [->| ->] Hns.
  - exists (TrimPrefix ns "x-on:fir:").
    rewrite !TrimPrefix_app, TrimPrefix_before_dot by done.
    split; [by apply has_byte_TrimPrefix|done].
  - exists ns. split; [done|].
    change (TrimPrefix ("x-on:fir:" +:+ ns +:+ String "." mods) "@fir:")
      with ("x-on:fir:" +:+ ns +:+ String "." mods).
    change (TrimPrefix ("x-on:fir:" +:+ ns) "@fir:")
      with ("x-on:fir:" +:+ ns).
    by rewrite !TrimPrefix_app.
Qed.

Lemma HasPrefix_binding prefix rest :
  prefix = "@fir:" \/ prefix = "x-on:fir:" ->
  HasPrefix (prefix +:+ rest) "@fir:"
  || HasPrefix (prefix +:+ rest) "x-on:fir:" = true.
Proof. intros [->| ->]; by rewrite HasPrefix_app, ?orb_true_r. Qed.

(** With at most two modifiers the namespace is the first segment. *)
Lemma addAttr_modifiers tbl prefix ns mods :
  prefix = "@fir:" \/ prefix = "x-on:fir:" ->
  has_byte "." ns = false ->
  length (Split mods ".") <= 2 ->
  addAttr tbl (attr (prefix +:+ ns +:+ "." +:+ mods))
  = addAttr tbl (attr (prefix +:+ ns)).
Proof.
  intros Hp Hns Hmods. unfold addAttr. cbn [Key attr].
  change ("." +:+ mods) with (String "." mods).
  rewrite !HasPrefix_binding by done.
  destruct (eventns_shape prefix ns mods Hp Hns) as (ns' & Hns' & -> & ->).
  rewrite Split_byte_app, (Split_absent "." "" ns') by done.
  cbn [length]. rewrite !index_first.
  destruct (3 <? S (length (Split mods "."))) eqn:Hlen.
  { apply Nat.ltb_lt in Hlen. lia. }
  reflexivity.
Qed.

(** With more than two modifiers the key is a format error, and only
    that. *)
Lemma addAttr_many_modifiers tbl prefix rest :
  prefix = "@fir:" \/ prefix = "x-on:fir:" ->
  3 < length (Split (TrimPrefix (TrimPrefix (prefix +:+ rest) "@fir:")
                       "x-on:fir:") ".") ->
  addAttr tbl (attr (prefix +:+ rest))
  = Ret (tbl, [eventFormatError
                 (TrimPrefix (TrimPrefix (prefix +:+ rest) "@fir:")
                    "x-on:fir:")]).
Proof.
  intros Hp Hlen. unfold addAttr. cbn [Key attr].
  rewrite HasPrefix_binding by done.
  apply Nat.ltb_lt in Hlen. by rewrite Hlen.
Qed.

(** C1, on the code: a key of the form [ev:ok::tmpl] or [ev:error::tmpl],
    under either prefix, is not recorded. The split on [::] has two parts,
    the template name is read at index 2, and the scan panics with the
    table as it was. *)
Theorem C1_template_forms_panic (tbl : gmap string (gset string)) :
  addAttr tbl (attr "@fir:ev:ok::tmpl") = Panic "index out of range" /\
  addAttr tbl (attr "@fir:ev:error::tmpl") = Panic "index out of range" /\
  addAttr tbl (attr "x-on:fir:ev:ok::tmpl") = Panic "index out of range" /\
  addAttr tbl (attr "x-on:fir:ev:error::tmpl") = Panic "index out of range" /\
  (let s := (AddFile (RouteBindings "route" None)
               (inl [[attr "@fir:ev:ok::tmpl"]])).2 in
   panicked s = Some "index out of range" /\ table s = ∅).
Proof. repeat split; reflexivity. Qed.

(** C4, as stated, fails: with three modifiers after the namespace the key
    is reported as a format error and nothing is recorded, although the
    namespace alone is a valid binding. *)
Lemma C4_three_modifiers_rejected :
  addAttr ∅ (attr "@fir:ev:ok.a.b.c")
  = Ret (∅, [eventFormatError "ev:ok.a.b.c"]) /\
  addAttr ∅ (attr "@fir:ev:ok") = Ret ({[ "ev:ok" := {["-"]} ]}, []).
Proof. split; reflexivity. Qed.

(** C4, amended: for a key with a recognised prefix, a namespace and up to
    two modifier segments, the scanner keeps the first segment and treats
    the key as it treats the namespace alone; with more than two modifier
    segments the key is logged as a format error, the table is unchanged
    and the scan goes on. *)
Theorem C4_modifiers tbl prefix ns mods :
  prefix = "@fir:" \/ prefix = "x-on:fir:" ->
  has_byte "." ns = false ->
  (length (Split mods ".") <= 2 ->
   addAttr tbl (attr (prefix +:+ ns +:+ "." +:+ mods))
   = addAttr tbl (attr (prefix +:+ ns))) /\
  (2 < length (Split mods ".") ->
   exists eventns,
     addAttr tbl (attr (prefix +:+ ns +:+ "." +:+ mods))
     = Ret (tbl, [eventFormatError eventns])).
Proof.
  intros Hp Hns. split; intros Hlen.
  - by apply addAttr_modifiers.
  - eexists. apply addAttr_many_modifiers; [done|].
    change ("." +:+ mods) with (String "." mods).
    destruct (eventns_shape prefix ns mods Hp Hns) as (ns' & Hns' & -> & _).
    rewrite Split_byte_app by done. cbn [length]. lia.
Qed.

Lemma C4_modifiers_witness :
  addAttr ∅ (attr "@fir:ev:ok.debounce.500ms") = addAttr ∅ (attr "@fir:ev:ok")
  /\ exists eventns,
       addAttr ∅ (attr "@fir:ev:ok.a.b.c")
       = Ret (∅, [eventFormatError eventns]).
Proof.
  split.
  - apply (C4_modifiers ∅ "@fir:" "ev:ok" "debounce.500ms");
      [by left | reflexivity | vm_compute; lia].
  - apply (C4_modifiers ∅ "@fir:" "ev:ok" "a.b.c");
      [by left | reflexivity | vm_compute; lia].
Defined.

(** C5, on the code: a key that supplies a template name outside the
    class, [ev:ok::bad_name], is not rejected with the invalid-template-name
    entry. The scan panics at the read of the template name, logs nothing,
    and the attribute after it is never reached. *)
Theorem C5_invalid_template_name_panics :
  templateNameRegex "bad_name" = false /\
  addAttr ∅ (attr "@fir:ev:ok::bad_name") = Panic "index out of range" /\
  (let s := (AddFile (RouteBindings "route" None)
               (inl [[attr "@fir:ev:ok::bad_name"; attr "@fir:next:ok"]])).2 in
   panicked s = Some "index out of range" /\ logged s = [] /\ table s = ∅).
Proof. repeat split; reflexivity. Qed.

(** C9: a key with no template name recorded under it, whether it is
    absent from the table or was never scanned, has the empty list of
    template names; [TemplateNames] has no error to return. *)
Theorem C9_TemplateNames_unbound (b : Bindings) (eventIDWithState : string) :
  (forall templateName,
     templateName ∉ default ∅ (eventTemplates b !! eventIDWithState)) ->
  TemplateNames b eventIDWithState = [].
Proof.
  intros H. unfold TemplateNames.
  assert (default ∅ (eventTemplates b !! eventIDWithState) = ∅) as ->.
  { apply leibniz_equiv, elem_of_equiv_empty. exact H. }
  apply elements_empty.
Qed.

Lemma C9_TemplateNames_unbound_witness :
  TemplateNames (RouteBindings "route" None) "like:ok" = [].
Proof.
  apply (C9_TemplateNames_unbound (RouteBindings "route" None) "like:ok").
  intros templateName. apply not_elem_of_empty.
Defined.
End scanner.

(** ** Reconciliation: [trackErrors] *)

Section reconciliation.
Import fir.

Lemma State_not_OK (e : dom.Event) :
  String.eqb (dom.State e) eventstate.OK = false <->
  dom.State e <> eventstate.OK.
Proof. apply String.eqb_neq. Qed.

(** The first loop appends every candidate, in order. *)
Lemma setNewErrors_passes events :
  forall m acc m' out,
    setNewErrors events m acc = Ret (m', out) -> out = acc ++ events.
Proof.
  induction events as [|e events IH]; intros m acc m' out; cbn [setNewErrors].
  - intros [= _ <-]. by rewrite app_nil_r.
  - destruct (String.eqb (dom.State e) eventstate.OK).
    + intros H%IH. by rewrite H, <- app_assoc.
    + destruct (dom.Type' e) as [ty|]; [|done].
      destruct (dom.Target e) as [tg|]; [|done].
      cbn. intros H%IH. by rewrite H, <- app_assoc.
Qed.

(** It returns when every candidate it records has a type and a target. *)
Lemma setNewErrors_returns events :
  Forall trackable events ->
  forall m acc, exists m', setNewErrors events m acc = Ret (m', acc ++ events).
Proof.
  induction 1 as [|e events He _ IH]; intros m acc; cbn [setNewErrors].
  - exists m. by rewrite app_nil_r.
  - destruct (String.eqb (dom.State e) eventstate.OK) eqn:Hst.
    + destruct (IH m (acc ++ [e])) as [m' Hm']. exists m'.
      by rewrite Hm', <- app_assoc.
    + apply String.eqb_neq in Hst.
      destruct He as [?|[[ty Hty] [tg Htg]]]; [done|].
      rewrite Hty, Htg. cbn.
      destruct (IH (<[ty:=tg]> m) (acc ++ [e])) as [m' Hm']. exists m'.
      by rewrite Hm', <- app_assoc.
Qed.

(** Every entry of the new mapping was there before the loop or is the
    type and target of a candidate in a state other than ok. *)
Lemma setNewErrors_sound events :
  forall m acc m' out,
    setNewErrors events m acc = Ret (m', out) ->
    forall ty tg, m' !! ty = Some tg ->
      m !! ty = Some tg \/
      exists e, e ∈ events /\ dom.State e <> eventstate.OK /\
                dom.Type' e = Some ty /\ dom.Target e = Some tg.
Proof.
  induction events as [|e events IH]; intros m acc m' out; cbn [setNewErrors].
  - intros [= <- _] ty tg H. by left.
  - destruct (String.eqb (dom.State e) eventstate.OK) eqn:Hst.
    + intros H ty tg Hl. destruct (IH _ _ _ _ H ty tg Hl) as [?|(e' & ? & ?)].
      * by left.
      * right. exists e'. split; [by apply elem_of_cons; right|done].
    + apply String.eqb_neq in Hst.
      destruct (dom.Type' e) as [ty0|] eqn:Hty; [|done].
      destruct (dom.Target e) as [tg0|] eqn:Htg; [|done].
      cbn. intros H ty tg Hl.
      destruct (IH _ _ _ _ H ty tg Hl) as [Hm|(e' & ? & ?)].
      * destruct (decide (ty0 = ty)) as [->|Hne].
        -- rewrite lookup_insert_eq in Hm. injection Hm as ->.
           right. exists e. split; [by apply elem_of_cons; left|done].
        -- rewrite lookup_insert_ne in Hm by done. by left.
      * right. exists e'. split; [by apply elem_of_cons; right|done].
Qed.

(** Every candidate in a state other than ok has its type in the new
    mapping, and the loop drops no entry. *)
Lemma setNewErrors_complete events :
  forall m acc m' out,
    setNewErrors events m acc = Ret (m', out) ->
    (forall ty, is_Some (m !! ty) -> is_Some (m' !! ty)) /\
    (forall e, e ∈ events -> dom.State e <> eventstate.OK ->
       exists ty tg, dom.Type' e = Some ty /\ dom.Target e = Some tg /\
                     is_Some (m' !! ty)).
Proof.
  induction events as [|e events IH]; intros m acc m' out; cbn [setNewErrors].
  - intros [= <- _]. split; [done|]. intros e H. by apply not_elem_of_nil in H.
  - destruct (String.eqb (dom.State e) eventstate.OK) eqn:Hst.
    + intros H. destruct (IH _ _ _ _ H) as [Hkeep Hrec]. split; [done|].
      intros e' [->|Hin]%elem_of_cons Hne.
      * apply String.eqb_eq in Hst. done.
      * by apply Hrec.
    + destruct (dom.Type' e) as [ty0|] eqn:Hty; [|done].
      destruct (dom.Target e) as [tg0|] eqn:Htg; [|done].
      cbn. intros H. destruct (IH _ _ _ _ H) as [Hkeep Hrec]. split.
      * intros ty Hsome. apply Hkeep.
        destruct (decide (ty0 = ty)) as [->|Hne].
        -- rewrite lookup_insert_eq. by eexists.
        -- by rewrite lookup_insert_ne.
      * intros e' [->|Hin]%elem_of_cons Hne.
        -- exists ty0, tg0. repeat split; [done..|].
           apply Hkeep. rewrite lookup_insert_eq. by eexists.
        -- by apply Hrec.
Qed.

(** The second loop only appends. *)
Lemma unsetPrevErrors_app l new acc :
  unsetPrevErrors l new acc = acc ++ unsetPrevErrors l new [].
Proof.
  revert acc. induction l as [|[k v] l IH]; intros acc; cbn [unsetPrevErrors].
  - by rewrite app_nil_r.
  - destruct (new !! k); [apply IH|].
    rewrite (IH (acc ++ _)), (IH ([] ++ _)). by rewrite <- app_assoc.
Qed.

Lemma unsetPrevErrors_cons k v l new :
  unsetPrevErrors ((k, v) :: l) new []
  = match new !! k with
    | Some _ => unsetPrevErrors l new []
    | None => clearEvent k v :: unsetPrevErrors l new []
    end.
Proof.
  cbn [unsetPrevErrors]. destruct (new !! k); [done|].
  by rewrite unsetPrevErrors_app.
Qed.

(** What the second loop appends are clearing events for entries of the
    previous mapping whose type is not in the new one. *)
Lemma unsetPrevErrors_elem l new e :
  e ∈ unsetPrevErrors l new [] ->
  exists k v, e = clearEvent k v /\ (k, v) ∈ l /\ new !! k = None.
Proof.
  induction l as [|[k v] l IH]; [by intros H%not_elem_of_nil|].
  rewrite unsetPrevErrors_cons. destruct (new !! k) eqn:Hk.
  - intros (k' & v' & ? & ? & ?)%IH. exists k', v'.
    split_and!; [done| by apply elem_of_cons; right |done].
  - intros [->|(k' & v' & ? & ? & ?)%IH]%elem_of_cons.
    + exists k, v. split_and!; [done| by apply elem_of_cons; left |done].
    + exists k', v'. split_and!; [done| by apply elem_of_cons; right |done].
Qed.

Lemma clears_none l new k :
  (k ∉ l.*1 \/ is_Some (new !! k)) ->
  filter (fun e => dom.Type' e = Some k) (unsetPrevErrors l new []) = [].
Proof.
  intros H. induction l as [|[k' v'] l IH]; [done|].
  rewrite unsetPrevErrors_cons.
  assert (Hl : k ∉ l.*1 \/ is_Some (new !! k)).
  { destruct H as [H|H]; [left|by right].
    intros Hin. apply H. rewrite fmap_cons. by apply elem_of_cons; right. }
  destruct (new !! k') eqn:Hk'; [by apply IH|].
  rewrite filter_cons_False; [by apply IH|].
  cbn. intros [= ->]. destruct H as [H|[? H]].
  - apply H. rewrite fmap_cons. by apply elem_of_cons; left.
  - congruence.
Qed.

(** A type of the previous mapping that is not in the new one is cleared
    exactly once, with its previous target. *)
Lemma clears_once l new k v :
  NoDup l.*1 -> (k, v) ∈ l -> new !! k = None ->
  filter (fun e => dom.Type' e = Some k) (unsetPrevErrors l new [])
  = [clearEvent k v].
Proof.
  intros Hnd Hin Hk. induction l as [|[k' v'] l IH].
  { by apply not_elem_of_nil in Hin. }
  rewrite fmap_cons in Hnd. apply NoDup_cons in Hnd as [Hk' Hnd].
  rewrite unsetPrevErrors_cons.
  apply elem_of_cons in Hin as [[= <- <-]|Hin].
  - rewrite Hk. rewrite filter_cons_True by done.
    rewrite clears_none; [done|by left].
  - assert (k <> k').
    { intros ->. apply Hk'. apply list_elem_of_fmap. by exists (k', v). }
    destruct (new !! k'); [by apply IH|].
    rewrite filter_cons_False; [by apply IH|].
    cbn. congruence.
Qed.

(** [trackErrors], once the session, the previous mapping and the first
    loop are known. *)
Lemma trackErrors_unfold ctx ev events sid prev new :
  pubsub.SessionID ev = Some sid ->
  loadPrevErrors (cache (ctx_route ctx)) sid = Ret prev ->
  setNewErrors events ∅ [] = Ret (new, events) ->
  trackErrors ctx ev events
  = let newEvents := events ++ unsetPrevErrors (map_to_list prev) new [] in
    {| cache_after := <[sid := MapStringString new]> (cache (ctx_route ctx));
       returned :=
         if length newEvents =? 0 then
           id ← deref (pubsub.ID ev);
           Ret (newEvents ++
                  [rawEvent id ev (id +:+ ":" +:+ pubsub.State ev)])
         else Ret newEvents |}.
Proof.
  intros Hsid Hprev Hnew. unfold trackErrors.
  rewrite Hsid. cbn [deref]. rewrite Hprev, bind_Ret, Hnew, bind_Ret.
  cbv zeta. by rewrite <- unsetPrevErrors_app.
Qed.


Lemma recorded_last_cons e events ty tg :
  recorded_last (e :: events) ty tg <->
  recorded_last events ty tg \/
  (dom.State e <> eventstate.OK /\ dom.Type' e = Some ty /\
   dom.Target e = Some tg /\ Forall (records_not ty) events).
Proof.
  split.
  - intros (before & e' & after & Heq & Hst & Hty & Htg & Hafter).
    destruct before as [|e0 before]; cbn in Heq; injection Heq as -> ->.
    + by right.
    + left. by exists before, e', after.
  - intros [(before & e' & after & -> & H)|(Hst & Hty & Htg & Hafter)].
    + by exists (e :: before), e', after.
    + by exists [], e, events.
Qed.

(** The new mapping, entry by entry: what the last candidate of a type
    that is not ok recorded, or what was there when no candidate has the
    type. *)
Lemma setNewErrors_exact events :
  forall m acc m' out,
    setNewErrors events m acc = Ret (m', out) ->
    forall ty tg,
      m' !! ty = Some tg <->
      recorded_last events ty tg \/
      (m !! ty = Some tg /\ Forall (records_not ty) events).
Proof.
  induction events as [|e events IH]; intros m acc m' out; cbn [setNewErrors].
  - intros [= <- _] ty tg. split.
    + intros H. right. by split.
    + intros [(before & e & after & Heq & _)|[H _]]; [|done].
      by destruct before.
  - destruct (String.eqb (dom.State e) eventstate.OK) eqn:Hst.
    + apply String.eqb_eq in Hst. intros H ty tg.
      rewrite (IH _ _ _ _ H ty tg), recorded_last_cons, Forall_cons.
      unfold records_not at 2. split.
      * intros [?|[? ?]]; [by left; left|]. right. split; [done|].
        split; [by left|done].
      * intros [[?|(? & _)]|[? [_ ?]]]; [by left|done|by right].
    + apply String.eqb_neq in Hst.
      destruct (dom.Type' e) as [ty0|] eqn:Hty; [|done].
      destruct (dom.Target e) as [tg0|] eqn:Htg; [|done].
      cbn. intros H ty tg.
      rewrite (IH _ _ _ _ H ty tg), recorded_last_cons, Forall_cons.
      unfold records_not at 3. rewrite Hty, Htg.
      destruct (decide (ty0 = ty)) as [->|Hne].
      * rewrite lookup_insert_eq. split.
        -- intros [?|[[= ->] ?]]; [by left; left|]. left. right. done.
        -- intros [[?|(_ & _ & [= ->] & ?)]|[_ [[?|?] _]]];
             [by left|by right|done|done].
      * rewrite lookup_insert_ne by done. split.
        -- intros [?|[? ?]]; [by left; left|]. right. split; [done|].
           split; [right; congruence|done].
        -- intros [[?|(_ & [= ?] & _)]|[? [_ ?]]];
             [by left|done|by right].
Qed.

(** C3, as stated, fails: a candidate in state pending is recorded in the
    new mapping that is stored as the session's cache entry, just as an
    error candidate is. *)
Lemma C3_pending_recorded :
  let ev := exampleEvent "save" eventstate.Pending (Some "#save") Nil in
  let candidate := rawEvent "save" ev "save:pending" in
  dom.State candidate = eventstate.Pending /\
  cache_after (trackErrors (exampleCtx ∅ None ∅) ev [candidate])
    !! "session-1"
  = Some (MapStringString {[ "fir:save:pending" := "#save" ]}).
Proof. split; reflexivity. Qed.

(** C3, amended: for a bus event with a session id and an event id, a
    cache entry that is absent or a map[string]string, and candidates that
    carry a type and a target wherever their state is not ok: every
    candidate, ok or not, passes through unchanged and in order at the head
    of the output; the new mapping stored as the session's cache entry has
    the type of every candidate in a state other than ok (error, pending
    and done alike) as a key; the value of a type is the target of the last
    such candidate of that type, so the candidate's own target unless a
    later one has the same type; and the mapping holds nothing else, in
    particular nothing of an ok candidate. *)
Theorem C3_non_ok_recorded ctx ev events sid prev :
  pubsub.SessionID ev = Some sid ->
  is_Some (pubsub.ID ev) ->
  loadPrevErrors (cache (ctx_route ctx)) sid = Ret prev ->
  Forall trackable events ->
  exists newErrors rest,
    cache_after (trackErrors ctx ev events)
    = <[sid := MapStringString newErrors]> (cache (ctx_route ctx)) /\
    returned (trackErrors ctx ev events) = Ret (events ++ rest) /\
    (forall ty tg, newErrors !! ty = Some tg <-> recorded_last events ty tg) /\
    (forall e, e ∈ events -> dom.State e <> eventstate.OK ->
       exists ty tg, dom.Type' e = Some ty /\ dom.Target e = Some tg /\
                     is_Some (newErrors !! ty)) /\
    (forall ty tg, newErrors !! ty = Some tg ->
       exists e, e ∈ events /\ dom.State e <> eventstate.OK /\
                 dom.Type' e = Some ty /\ dom.Target e = Some tg).
Proof.
  intros Hsid [id Hid] Hprev Hev.
  destruct (setNewErrors_returns events Hev ∅ []) as [new Hnew].
  rewrite app_nil_l in Hnew.
  rewrite (trackErrors_unfold ctx ev events sid prev new) by done.
  cbv zeta. cbn [cache_after returned].
  exists new.
  exists (unsetPrevErrors (map_to_list prev) new [] ++
          if length (events ++ unsetPrevErrors (map_to_list prev) new []) =? 0
          then [rawEvent id ev (id +:+ ":" +:+ pubsub.State ev)] else []).
  split_and!.
  - done.
  - rewrite Hid. cbn [deref]. rewrite bind_Ret.
    destruct (length _ =? 0); by rewrite ?app_nil_r, ?app_assoc.
  - intros ty tg. rewrite (setNewErrors_exact _ _ _ _ _ Hnew ty tg).
    rewrite lookup_empty. split; [|by left]. by intros [?|[? _]].
  - apply (setNewErrors_complete _ _ _ _ _ Hnew).
  - intros ty tg Hl.
    destruct (setNewErrors_sound _ _ _ _ _ Hnew ty tg Hl) as [H|H]; [|done].
    by rewrite lookup_empty in H.
Qed.

Lemma C3_non_ok_recorded_witness :
  let ev := exampleEvent "save" eventstate.Done (Some "#save") Nil in
  let events := [rawEvent "save" ev "save:done";
                 {| dom.Type' := None; dom.Target := None; dom.Detail := Nil;
                    dom.ID := "load"; dom.State := eventstate.OK |}] in
  exists newErrors rest,
    cache_after (trackErrors (exampleCtx ∅ None ∅) ev events)
    = <["session-1" := MapStringString newErrors]> ∅ /\
    returned (trackErrors (exampleCtx ∅ None ∅) ev events)
    = Ret (events ++ rest) /\
    (forall ty tg, newErrors !! ty = Some tg <-> recorded_last events ty tg) /\
    (forall e, e ∈ events -> dom.State e <> eventstate.OK ->
       exists ty tg, dom.Type' e = Some ty /\ dom.Target e = Some tg /\
                     is_Some (newErrors !! ty)) /\
    (forall ty tg, newErrors !! ty = Some tg ->
       exists e, e ∈ events /\ dom.State e <> eventstate.OK /\
                 dom.Type' e = Some ty /\ dom.Target e = Some tg).
Proof.
  intros ev events.
  apply (C3_non_ok_recorded (exampleCtx ∅ None ∅) ev events "session-1" ∅).
  - reflexivity.
  - exists "save". reflexivity.
  - reflexivity.
  - constructor; [right; split; eexists; reflexivity|].
    constructor; [left; reflexivity|constructor].
Defined.

(** Of two candidates of one type that are not ok, the later decides the
    target that is recorded. *)
Example later_candidate_decides_target :
  let ev := exampleEvent "form" eventstate.Error (Some "#a") Nil in
  let first := rawEvent "form" ev "form:error" in
  let second :=
    {| dom.Type' := Some "fir:form:error"; dom.Target := Some "#b";
       dom.Detail := Nil; dom.ID := "form";
       dom.State := eventstate.Error |} in
  cache_after (trackErrors (exampleCtx ∅ None ∅) ev [first; second])
    !! "session-1"
  = Some (MapStringString {[ "fir:form:error" := "#b" ]}).
Proof. reflexivity. Qed.




(** C7, as stated, fails: the pair (type, #a) of the previous round is
    absent from the new mapping, which holds (type, #b), and yet no
    clearing event is appended for it. Absence is decided on the type
    alone. *)
Lemma C7_retargeted_type_not_cleared :
  let cache0 : gmap string any :=
    {[ "session-1" := MapStringString {[ "fir:form:error" := "#a" ]} ]} in
  let ev := exampleEvent "form" eventstate.Error (Some "#b") (Str "bad") in
  let candidate := rawEvent "form" ev "form:error" in
  let round := trackErrors (exampleCtx ∅ None cache0) ev [candidate] in
  cache_after round !! "session-1"
  = Some (MapStringString {[ "fir:form:error" := "#b" ]}) /\
  returned round = Ret [candidate].
Proof. split; reflexivity. Qed.

(** C7, amended: for a bus event with a session id and an event id, a
    cache entry that is absent or a map[string]string, and candidates that
    carry a type and a target wherever their state is not ok. The new
    mapping of the round holds, for each type of a candidate that is not
    ok, the target of the last such candidate. An entry (type, target) of
    the previous round's mapping whose type is not a key of the new
    mapping gets exactly one clearing event, with that type, that target
    and the empty string as detail, appended after the candidates; an entry
    whose type is a key of the new mapping gets none, whatever target is
    recorded for it now; nothing else is appended, but the fallback event
    when there is neither a candidate nor a clearing event. *)
Theorem C7_clearing_events ctx ev events sid id prev :
  pubsub.SessionID ev = Some sid ->
  pubsub.ID ev = Some id ->
  loadPrevErrors (cache (ctx_route ctx)) sid = Ret prev ->
  Forall trackable events ->
  exists newErrors clears,
    (forall ty tg, newErrors !! ty = Some tg <-> recorded_last events ty tg) /\
    cache_after (trackErrors ctx ev events)
    = <[sid := MapStringString newErrors]> (cache (ctx_route ctx)) /\
    returned (trackErrors ctx ev events)
    = Ret (events ++ clears ++
           match events ++ clears with
           | [] => [rawEvent id ev (id +:+ ":" +:+ pubsub.State ev)]
           | _ :: _ => []
           end) /\
    (forall ty tg, prev !! ty = Some tg -> newErrors !! ty = None ->
       filter (fun e => dom.Type' e = Some ty) clears
       = [{| dom.Type' := Some ty; dom.Target := Some tg;
             dom.Detail := Str ""; dom.ID := ""; dom.State := "" |}]) /\
    (forall ty, is_Some (newErrors !! ty) ->
       filter (fun e => dom.Type' e = Some ty) clears = []) /\
    (forall e, e ∈ clears ->
       exists ty tg, e = clearEvent ty tg /\ prev !! ty = Some tg /\
                     newErrors !! ty = None).
Proof.
  intros Hsid Hid Hprev Hev.
  destruct (setNewErrors_returns events Hev ∅ []) as [new Hnew].
  rewrite app_nil_l in Hnew.
  rewrite (trackErrors_unfold ctx ev events sid prev new) by done.
  cbv zeta. cbn [cache_after returned].
  exists new, (unsetPrevErrors (map_to_list prev) new []).
  split_and!.
  - intros ty tg. rewrite (setNewErrors_exact _ _ _ _ _ Hnew ty tg).
    rewrite lookup_empty. split; [|by left]. by intros [?|[? _]].
  - done.
  - rewrite Hid. cbn [deref]. rewrite bind_Ret, app_assoc.
    destruct (events ++ unsetPrevErrors (map_to_list prev) new [])
      as [|e out]; cbn [length Nat.eqb]; [done|].
    by rewrite app_nil_r.
  - intros ty tg Hp Hn.
    apply clears_once; [apply NoDup_fst_map_to_list| |done].
    by apply elem_of_map_to_list.
  - intros ty Hn. apply clears_none. by right.
  - intros e (k & v & -> & Hin & Hk)%unsetPrevErrors_elem.
    exists k, v. split_and!; [done| |done]. by apply elem_of_map_to_list.
Qed.

Lemma C7_clearing_events_witness :
  let prev : gmap string string :=
    {[ "fir:form:error:name-error" := "#name-error" ]} in
  let cache0 : gmap string any :=
    {[ "session-1" := MapStringString prev ]} in
  let ctx := exampleCtx ∅ None cache0 in
  let ev := exampleEvent "form" eventstate.OK None Nil in
  exists newErrors clears,
    (forall ty tg, newErrors !! ty = Some tg <-> recorded_last [] ty tg) /\
    cache_after (trackErrors ctx ev [])
    = <["session-1" := MapStringString newErrors]> cache0 /\
    returned (trackErrors ctx ev [])
    = Ret ([] ++ clears ++
           match [] ++ clears with
           | [] => [rawEvent "form" ev ("form" +:+ ":" +:+ pubsub.State ev)]
           | _ :: _ => []
           end) /\
    (forall ty tg, prev !! ty = Some tg -> newErrors !! ty = None ->
       filter (fun e => dom.Type' e = Some ty) clears
       = [{| dom.Type' := Some ty; dom.Target := Some tg;
             dom.Detail := Str ""; dom.ID := ""; dom.State := "" |}]) /\
    (forall ty, is_Some (newErrors !! ty) ->
       filter (fun e => dom.Type' e = Some ty) clears = []) /\
    (forall e, e ∈ clears ->
       exists ty tg, e = clearEvent ty tg /\ prev !! ty = Some tg /\
                     newErrors !! ty = None).
Proof.
  intros prev cache0 ctx ev.
  apply (C7_clearing_events ctx ev [] "session-1" "form" prev).
  - reflexivity.
  - reflexivity.
  - reflexivity.
  - constructor.
Defined.

(** The round trip of the specification: an error for a field is recorded
    active, and the ok event that follows clears it. *)
Example reconcile_round_trip :
  let ev1 :=
    exampleEvent "form" eventstate.Error (Some "#name-error") Nil in
  let shown :=
    {| dom.Type' := Some "fir:form:error::name-error";
       dom.Target := Some "#name-error";
       dom.Detail := Str "<span>required</span>";
       dom.ID := "form:error"; dom.State := eventstate.Error |} in
  let round1 := trackErrors (exampleCtx ∅ None ∅) ev1 [shown] in
  let ev2 := exampleEvent "form" eventstate.OK None Nil in
  let round2 := trackErrors (exampleCtx ∅ None (cache_after round1)) ev2 [] in
  returned round1 = Ret [shown] /\
  returned round2
  = Ret [clearEvent "fir:form:error::name-error" "#name-error"] /\
  cache_after round2 !! "session-1" = Some (MapStringString ∅).
Proof. repeat split; reflexivity. Qed.

(** A type that is active again with another target is not cleared:
    absence from the new mapping is decided on the type alone. *)
Example reconcile_same_type_other_target :
  let cache0 : gmap string any :=
    {[ "session-1" := MapStringString {[ "fir:form:error" := "#a" ]} ]} in
  let ev := exampleEvent "form" eventstate.Error (Some "#b") (Str "bad") in
  let candidate := rawEvent "form" ev "form:error" in
  returned (trackErrors (exampleCtx ∅ None cache0) ev [candidate])
  = Ret [candidate].
Proof. reflexivity. Qed.
End reconciliation.


(** ** Rendering: [buildTemplateValue] and [renderDOMEvents] *)

Section rendering.
Import fir.

Variable minify : string -> string + error.
Variable newRouteDOMContext : RouteContext -> gmap string any -> any.

Lemma traced_bind_Ret {A B} cs (a : A) (k : A -> traced B) :
  Traced cs (Ret a) ≫= k = Traced (cs ++ calls (k a)) (outcome (k a)).
Proof. reflexivity. Qed.

Lemma buildTemplateValue_nil_template name data :
  buildTemplateValue minify None name data = Traced [] (Ret ("", None)).
Proof. reflexivity. Qed.

Lemma buildTemplateValue_empty_name t data :
  buildTemplateValue minify t "" data = Traced [] (Ret ("", None)).
Proof. by destruct t. Qed.

(** The pass-through name with a string: no template is executed, the
    string goes to the minifier as it is. *)
Lemma buildTemplateValue_sentinel_string t s :
  buildTemplateValue minify (Some t) "_fir_html" (Str s)
  = Traced [callMinify s] (Ret (minifiedOrError minify s)).
Proof.
  unfold buildTemplateValue, minifiedOrError, minified. cbn.
  by destruct (minify s).
Qed.

(** A named template: one execution, and one minification of what it
    wrote unless it failed. *)
Lemma buildTemplateValue_named t name data :
  name <> "" -> name <> "_fir_html" ->
  buildTemplateValue minify (Some t) name data
  = match ExecuteTemplate t name data with
    | inr err => Traced [callExecuteTemplate name data] (Ret ("", Some err))
    | inl raw =>
        Traced [callExecuteTemplate name data; callMinify raw]
          (Ret (minifiedOrError minify raw))
    end.
Proof.
  intros H1%String.eqb_neq H2%String.eqb_neq.
  unfold buildTemplateValue, minifiedOrError, minified, execute.
  rewrite H1, H2. cbn.
  destruct (ExecuteTemplate t name data) as [raw|err]; [|done].
  cbn. by destruct (minify raw).
Qed.

Lemma part_000_buildTemplateValue_sentinel_string t s :
  part_000.buildTemplateValue minify t "_fir_html" (Str s)
  = Traced [callMinify s] (Ret (minifiedOrError minify s)).
Proof.
  unfold part_000.buildTemplateValue, minifiedOrError, minified. cbn.
  by destruct (minify s).
Qed.

Lemma part_000_buildTemplateValue_named t name data :
  name <> "_fir_html" ->
  part_000.buildTemplateValue minify (Some t) name data
  = match ExecuteTemplate t name data with
    | inr err => Traced [callExecuteTemplate name data] (Ret ("", Some err))
    | inl raw =>
        Traced [callExecuteTemplate name data; callMinify raw]
          (Ret (minifiedOrError minify raw))
    end.
Proof.
  intros H2%String.eqb_neq.
  unfold part_000.buildTemplateValue, minifiedOrError, minified, execute.
  rewrite H2. cbn.
  destruct (ExecuteTemplate t name data) as [raw|err]; [|done].
  cbn. by destruct (minify raw).
Qed.


(** C8, amended: with a template handle, [buildTemplateValue] returns the
    error of the template engine, without a panic, when the execution of a
    named template fails; given the pass-through name [_fir_html] and a
    string, it executes no template and returns the minified string, or the
    error of the minifier. Both copies of the function agree. *)
Theorem C8_buildTemplateValue_errors t name data err s :
  name <> "" -> name <> "_fir_html" ->
  ExecuteTemplate t name data = inr err ->
  buildTemplateValue minify (Some t) name data
  = Traced [callExecuteTemplate name data] (Ret ("", Some err)) /\
  part_000.buildTemplateValue minify (Some t) name data
  = Traced [callExecuteTemplate name data] (Ret ("", Some err)) /\
  buildTemplateValue minify (Some t) "_fir_html" (Str s)
  = Traced [callMinify s] (Ret (minifiedOrError minify s)) /\
  part_000.buildTemplateValue minify (Some t) "_fir_html" (Str s)
  = Traced [callMinify s] (Ret (minifiedOrError minify s)).
Proof.
  intros Hne Hsent Herr. split_and!.
  - rewrite buildTemplateValue_named by done. by rewrite Herr.
  - rewrite part_000_buildTemplateValue_named by done. by rewrite Herr.
  - apply buildTemplateValue_sentinel_string.
  - apply part_000_buildTemplateValue_sentinel_string.
Qed.






(** C10: with a nil template handle or with the empty template name,
    [buildTemplateValue] returns the empty string and no error, and calls
    neither the template engine nor the minifier; for a bus event in the
    error state the loop of [renderDOMEvents] then appends no event for
    that template name. *)
Theorem C10_empty_render ctx ev key name data :
  template (ctx_route ctx) = None \/ name = "" ->
  buildTemplateValue minify (template (ctx_route ctx)) name data
  = Traced [] (Ret ("", None)) /\
  (pubsub.State ev = eventstate.Error ->
   name <> "-" ->
   renderTemplate minify newRouteDOMContext ctx ev key name = Ret None).
Proof.
  intros Hempty.
  assert (Hbuild : forall d,
    buildTemplateValue minify (template (ctx_route ctx)) name d
    = Traced [] (Ret ("", None))).
  { intros d. destruct Hempty as [->| ->].
    - apply buildTemplateValue_nil_template.
    - apply buildTemplateValue_empty_name. }
  split; [apply Hbuild|].
  intros Hst Hname%String.eqb_neq. unfold renderTemplate.
  rewrite Hname, Hst. cbn [String.eqb andb].
  change (String.eqb eventstate.Error eventstate.Error) with true.
  cbn [andb].
  destruct (pubsub.Detail ev); cbn [isNil negb]; rewrite ?Hbuild; reflexivity.
Qed.

End rendering.


(** A bus event in the error state without a target, bound to the
    no-fragment name: the first loop of [trackErrors] dereferences the nil
    target. *)
Example render_path_nil_target :
  fir.returned
    (fir.renderDOMEvents exampleMinify exampleDOMContext
       (exampleCtx {[ "form:error" := {["-"]} ]} None ∅)
       (exampleEvent "form" eventstate.Error None (Str "bad")))
  = Panic "invalid memory address or nil pointer dereference".
Proof. reflexivity. Qed.


(** C8, as stated, fails: given the pass-through name and data that is not
    a string, both copies of [buildTemplateValue] panic at the unchecked
    type assertion instead of returning an error. *)
Lemma C8_sentinel_non_string_panics :
  fir.outcome
    (fir.buildTemplateValue exampleMinify (Some exampleTemplate) "_fir_html"
       (Int 42))
  = Panic "interface conversion: interface {} is not string" /\
  fir.outcome
    (part_000.buildTemplateValue exampleMinify (Some exampleTemplate)
       "_fir_html" (Int 42))
  = Panic "interface conversion: interface {} is not string".
Proof. split; reflexivity. Qed.

Lemma C8_buildTemplateValue_errors_witness :
  fir.buildTemplateValue exampleMinify (Some exampleTemplate) "missing" Nil
  = fir.Traced [fir.callExecuteTemplate "missing" Nil]
      (Ret ("", Some "html/template: missing is undefined")) /\
  part_000.buildTemplateValue exampleMinify (Some exampleTemplate) "missing" Nil
  = fir.Traced [fir.callExecuteTemplate "missing" Nil]
      (Ret ("", Some "html/template: missing is undefined")) /\
  fir.buildTemplateValue exampleMinify (Some exampleTemplate) "_fir_html"
    (Str "<b>hi</b>")
  = fir.Traced [fir.callMinify "<b>hi</b>"]
      (Ret (fir.minifiedOrError exampleMinify "<b>hi</b>")) /\
  part_000.buildTemplateValue exampleMinify (Some exampleTemplate) "_fir_html"
    (Str "<b>hi</b>")
  = fir.Traced [fir.callMinify "<b>hi</b>"]
      (Ret (fir.minifiedOrError exampleMinify "<b>hi</b>")).
Proof.
  apply (C8_buildTemplateValue_errors exampleMinify exampleTemplate "missing"
           Nil "html/template: missing is undefined" "<b>hi</b>");
    [discriminate | discriminate | reflexivity].
Defined.

Lemma C10_empty_render_witness :
  let ctx := exampleCtx {[ "form:error" := {[ "name-error" ]} ]} None ∅ in
  let ev := exampleEvent "form" eventstate.Error (Some "#name-error")
              (MapStringAny {[ "name" := Str "required" ]}) in
  fir.buildTemplateValue exampleMinify (fir.template (fir.ctx_route ctx))
    "name-error" (Str "x")
  = fir.Traced [] (Ret ("", None)) /\
  (pubsub.State ev = eventstate.Error ->
   "name-error" <> "-" ->
   fir.renderTemplate exampleMinify exampleDOMContext ctx ev "form:error"
     "name-error" = Ret None).
Proof.
  intros ctx ev.
  apply (C10_empty_render exampleMinify exampleDOMContext ctx ev "form:error"
           "name-error" (Str "x")).
  left. reflexivity.
Defined.

(** ** The scenarios of the specification *)

(** A bound no-fragment name passes the detail through unrendered. *)
Example scenario_like_ok :
  fir.returned
    (fir.renderDOMEvents exampleMinify exampleDOMContext
       (exampleCtx {[ "like:ok" := {["-"]} ]} None ∅)
       (exampleEvent "like" eventstate.OK (Some "#likes") (Int 42)))
  = Ret [{| dom.Type' := Some "fir:like:ok"; dom.Target := Some "#likes";
            dom.Detail := Int 42; dom.ID := "like";
            dom.State := eventstate.OK |}].
Proof. reflexivity. Qed.

(** A field error rendered by its template is emitted and recorded
    active; [fir] joins the template name to the key with a single colon. *)
Example scenario_form_error :
  let r :=
    fir.renderDOMEvents exampleMinify exampleDOMContext
      (exampleCtx {[ "form:error" := {["name-error"]} ]}
         (Some exampleTemplate) ∅)
      (exampleEvent "form" eventstate.Error (Some "#name-error")
         (MapStringAny {[ "name" := Str "required" ]})) in
  fir.returned r
  = Ret [{| dom.Type' := Some "fir:form:error:name-error";
            dom.Target := Some "#name-error";
            dom.Detail := Str "<span>required</span>";
            dom.ID := "form:error"; dom.State := eventstate.Error |}] /\
  fir.cache_after r !! "session-1"
  = Some (MapStringString {[ "fir:form:error:name-error" := "#name-error" ]}).
Proof. split; reflexivity. Qed.

(** ** The names a scan records *)

Section recorded_names.
Import GoStrings dom.

Ltac unchanged := intros [= <- _] Htbl; exact Htbl.

Lemma bindEventns_admitted (tbl tbl' : gmap string (gset string)) eventns es :
  bindEventns tbl eventns = Ret (tbl', es) -> admitted tbl -> admitted tbl'.
Proof.
  unfold bindEventns, continue_with.
  destruct (length (Split eventns "::") =? 0); [unchanged|].
  destruct (2 <? length (Split eventns "::")); [unchanged|].
  destruct (index (Split eventns "::") 0) as [eventID|]; [|done].
  rewrite bind_Ret.
  destruct (negb (length (Split eventID ":") =? 2)); [unchanged|].
  destruct (index (Split eventID ":") 1) as [st|]; [|done].
  rewrite bind_Ret.
  destruct (negb (Contains ["ok"; "error"; "pending"; "done"] st));
    [unchanged|].
  destruct (_ && _); [unchanged|].
  destruct (if length (Split eventns "::") =? 2 then _ else _)
    as [templateName|]; [|done].
  rewrite bind_Ret.
  destruct (templateNameRegex templateName) eqn:Hname; cbn [negb];
    [|unchanged].
  intros [= <- _] Htbl key name. unfold admitted in Htbl.
  destruct (decide (eventID = key)) as [->|Hne].
  - rewrite lookup_insert_eq. unfold default at 1. cbn [from_option].
    unfold Datatypes.id.
    intros [->%elem_of_singleton|Hin]%elem_of_union; [done|].
    by apply (Htbl key).
  - rewrite lookup_insert_ne by done. apply Htbl.
Qed.

Lemma addAttr_admitted (tbl tbl' : gmap string (gset string)) a es :
  addAttr tbl a = Ret (tbl', es) -> admitted tbl -> admitted tbl'.
Proof.
  unfold addAttr, continue_with.
  destruct (_ || _); [|unchanged].
  destruct (3 <? _); [unchanged|].
  destruct (if 0 <? _ then _ else _) as [eventns|]; [|done].
  rewrite bind_Ret. apply bindEventns_admitted.
Qed.

Lemma addAttrs_admitted attrs :
  forall (tbl : gmap string (gset string)) log,
    admitted tbl -> admitted (table (addAttrs tbl log attrs)).
Proof.
  induction attrs as [|a attrs IH]; intros tbl log Htbl; cbn [addAttrs].
  - done.
  - destruct (addAttr tbl a) as [[tbl' es]|msg] eqn:Ha; [|done].
    apply IH. by apply (addAttr_admitted tbl tbl' a es).
Qed.

Lemma addNodes_admitted nodes :
  forall (tbl : gmap string (gset string)) log,
    admitted tbl -> admitted (table (addNodes tbl log nodes)).
Proof.
  induction nodes as [|node nodes IH]; intros tbl log Htbl; cbn [addNodes].
  - done.
  - pose proof (addAttrs_admitted node tbl log Htbl) as Hnode.
    destruct (panicked (addAttrs tbl log node)); [done|by apply IH].
Qed.

(** The table of a route, scanned from any number of files, holds only
    names of the class; the pass-through name [_fir_html] is not one. *)
Lemma AddFile_admitted b rd :
  admitted (eventTemplates b) -> admitted (eventTemplates (AddFile b rd).1).
Proof.
  intros Hb. destruct rd as [doc|err]; cbn; [|done].
  by apply addNodes_admitted.
Qed.

Lemma RouteBindings_admitted id t :
  admitted (eventTemplates (RouteBindings id t)).
Proof.
  intros key name. cbn. rewrite lookup_empty. by intros ?%not_elem_of_empty.
Qed.

(** So are the names [TemplateNames] returns from such a table. *)
Lemma TemplateNames_admitted b key name :
  admitted (eventTemplates b) ->
  name ∈ TemplateNames b key -> templateNameRegex name = true.
Proof.
  intros Hb Hin. apply (Hb key). by apply elem_of_elements.
Qed.

(** A rejected key never stops a scan: only the panic of an attribute
    does. *)
Lemma addAttrs_continues tbl log a attrs tbl' es :
  addAttr tbl a = Ret (tbl', es) ->
  addAttrs tbl log (a :: attrs) = addAttrs tbl' (log ++ es) attrs.
Proof. intros H. cbn [addAttrs]. by rewrite H. Qed.

End recorded_names.

(** ** What an attribute does to any table *)

Section attribute_effect.
Import GoStrings dom.

(** What an attribute does is decided by its key alone: panic, nothing,
    one format error, or the no-fragment name recorded under a key. *)
Lemma bindEventns_effect eventns :
  (exists msg, forall tbl, bindEventns tbl eventns = Panic msg) \/
  (forall tbl, bindEventns tbl eventns = Ret (tbl, [])) \/
  (forall tbl, bindEventns tbl eventns
               = Ret (tbl, [eventFormatError eventns])) \/
  (exists key,
     forall tbl, bindEventns tbl eventns
                 = Ret (<[key := {["-"]} ∪ default ∅ (tbl !! key)]> tbl, [])).
Proof.
  unfold bindEventns, continue_with.
  destruct (length (Split eventns "::") =? 0); [by right; left|].
  destruct (2 <? length (Split eventns "::")); [by right; right; left|].
  destruct (index (Split eventns "::") 0) as [eventID|msg];
    [|by left; exists msg].
  cbn [mbind exec_mbind exec_bind].
  destruct (negb (length (Split eventID ":") =? 2)); [by right; right; left|].
  destruct (index (Split eventID ":") 1) as [st|msg]; [|by left; exists msg].
  cbn [mbind exec_mbind exec_bind].
  destruct (negb (Contains ["ok"; "error"; "pending"; "done"] st));
    [by right; right; left|].
  destruct (_ && _); [by right; right; left|].
  destruct (length (Split eventns "::") =? 2) eqn:H2.
  - apply Nat.eqb_eq in H2. left. eexists. intros tbl.
    rewrite index_past_end by lia. reflexivity.
  - right. right. right. by exists eventID.
Qed.

Lemma addAttr_effect a :
  (exists msg, forall tbl, addAttr tbl a = Panic msg) \/
  (forall tbl, addAttr tbl a = Ret (tbl, [])) \/
  (exists eventns,
     forall tbl, addAttr tbl a = Ret (tbl, [eventFormatError eventns])) \/
  (exists key,
     forall tbl, addAttr tbl a
                 = Ret (<[key := {["-"]} ∪ default ∅ (tbl !! key)]> tbl, [])).
Proof.
  unfold addAttr, continue_with.
  destruct (_ || _); [|by right; left].
  destruct (3 <? _); [by right; right; left; eexists|].
  destruct (if 0 <? _ then _ else _) as [eventns|msg]; [|by left; exists msg].
  cbn [mbind exec_mbind exec_bind].
  destruct (bindEventns_effect eventns)
    as [[msg H]|[H|[H|(key & H)]]].
  - left. by exists msg.
  - by right; left.
  - right. right. left. by exists eventns.
  - right. right. right. by exists key.
Qed.

Lemma table_le_refl tbl : table_le tbl tbl.
Proof. intros key names H. by exists names. Qed.

Lemma table_le_trans t1 t2 t3 :
  table_le t1 t2 -> table_le t2 t3 -> table_le t1 t3.
Proof.
  intros H12 H23 key names H.
  destruct (H12 key names H) as (names2 & H2 & Hsub).
  destruct (H23 key names2 H2) as (names3 & H3 & Hsub').
  exists names3. split; [done|]. set_solver.
Qed.

Lemma table_le_record (tbl : gmap string (gset string)) key name :
  table_le tbl (<[key := {[name]} ∪ default ∅ (tbl !! key)]> tbl).
Proof.
  intros k names H. destruct (decide (key = k)) as [->|Hne].
  - rewrite lookup_insert_eq, H. cbn. eexists. split; [done|].
    apply union_subseteq_r.
  - rewrite lookup_insert_ne by done. by exists names.
Qed.

(** Recording a binding the table already holds changes nothing. *)
Lemma record_absorbed (tbl T : gmap string (gset string)) key name :
  table_le (<[key := {[name]} ∪ default ∅ (tbl !! key)]> tbl) T ->
  <[key := {[name]} ∪ default ∅ (T !! key)]> T = T.
Proof.
  intros Hle.
  destruct (Hle key ({[name]} ∪ default ∅ (tbl !! key)))
    as (names & HT & Hsub); [by rewrite lookup_insert_eq|].
  rewrite HT. cbn. apply insert_id. rewrite HT. f_equal.
  symmetry. apply subseteq_union_1_L.
  etrans; [apply union_subseteq_l|exact Hsub].
Qed.

Lemma addAttr_grows tbl a tbl' es :
  addAttr tbl a = Ret (tbl', es) -> table_le tbl tbl'.
Proof.
  destruct (addAttr_effect a) as [[msg H]|[H|[[e H]|(key & H)]]];
    rewrite H; intros [= <- _];
    auto using table_le_refl, table_le_record.
Qed.

Lemma addAttr_absorbed tbl a tbl' es T :
  addAttr tbl a = Ret (tbl', es) -> table_le tbl' T ->
  addAttr T a = Ret (T, es).
Proof.
  destruct (addAttr_effect a) as [[msg H]|[H|[[e H]|(key & H)]]];
    rewrite !H; intros [= <- <-]; [done..|].
  intros Hle. by rewrite (record_absorbed tbl T key "-").
Qed.

Lemma addAttrs_grows attrs :
  forall tbl log, table_le tbl (table (addAttrs tbl log attrs)).
Proof.
  induction attrs as [|a attrs IH]; intros tbl log; cbn [addAttrs].
  - apply table_le_refl.
  - destruct (addAttr tbl a) as [[tbl' es]|msg] eqn:Ha;
      [|apply table_le_refl].
    eapply table_le_trans; [by eapply addAttr_grows|apply IH].
Qed.

Lemma addNodes_grows nodes :
  forall tbl log, table_le tbl (table (addNodes tbl log nodes)).
Proof.
  induction nodes as [|node nodes IH]; intros tbl log; cbn [addNodes].
  - apply table_le_refl.
  - pose proof (addAttrs_grows node tbl log) as Hnode.
    destruct (panicked (addAttrs tbl log node)); [done|].
    eapply table_le_trans; [exact Hnode|apply IH].
Qed.

Lemma TemplateNames_le b b' key name :
  table_le (eventTemplates b) (eventTemplates b') ->
  name ∈ TemplateNames b key -> name ∈ TemplateNames b' key.
Proof.
  unfold TemplateNames. intros Hle Hin%elem_of_elements.
  apply elem_of_elements.
  destruct (eventTemplates b !! key) as [names|] eqn:Hk;
    [|by apply not_elem_of_empty in Hin].
  destruct (Hle key names Hk) as (names' & -> & Hsub). cbn in *. set_solver.
Qed.

(** A scan never removes a binding: every template name bound to a key
    before [AddFile] is bound to it afterwards, whether or not the scan
    panicked on the way. *)
Theorem AddFile_keeps_bindings b rd key name :
  name ∈ TemplateNames b key ->
  name ∈ TemplateNames (AddFile b rd).1 key.
Proof.
  apply TemplateNames_le. destruct rd as [doc|err]; cbn.
  - apply addNodes_grows.
  - apply table_le_refl.
Qed.

End attribute_effect.

(** ** Scanning a document again *)

Section rescan.
Import GoStrings dom.

(** The log a scan is started with is only extended. *)
Lemma addAttrs_log attrs :
  forall tbl log,
    addAttrs tbl log attrs
    = {| table := table (addAttrs tbl [] attrs);
         logged := log ++ logged (addAttrs tbl [] attrs);
         panicked := panicked (addAttrs tbl [] attrs) |}.
Proof.
  induction attrs as [|a attrs IH]; intros tbl log; cbn [addAttrs].
  - cbn. by rewrite app_nil_r.
  - destruct (addAttr tbl a) as [[tbl' es]|msg];
      cbn [app table logged panicked].
    + rewrite (IH tbl' (log ++ es)), (IH tbl' es).
      cbn [table logged panicked]. by rewrite app_assoc.
    + by rewrite app_nil_r.
Qed.

(** The loop over the elements and the loop over their attributes visit
    the attributes of the document in one sequence. *)
Lemma addAttrs_app l1 l2 :
  forall tbl log,
    addAttrs tbl log (l1 ++ l2)
    = match panicked (addAttrs tbl log l1) with
      | None =>
          addAttrs (table (addAttrs tbl log l1))
            (logged (addAttrs tbl log l1)) l2
      | Some _ => addAttrs tbl log l1
      end.
Proof.
  induction l1 as [|a l1 IH]; intros tbl log; [done|].
  cbn [app addAttrs]. destruct (addAttr tbl a) as [[tbl' es]|msg]; [|done].
  apply IH.
Qed.

Lemma addNodes_concat nodes :
  forall tbl log, addNodes tbl log nodes = addAttrs tbl log (concat nodes).
Proof.
  induction nodes as [|node nodes IH]; intros tbl log; [done|].
  cbn [addNodes concat]. rewrite addAttrs_app.
  destruct (panicked (addAttrs tbl log node)); [done|]. apply IH.
Qed.

(** Scanning attributes over a table that already holds what they bind
    leaves it as it is, and logs what the first scan logged. *)
Lemma addAttrs_absorbed attrs :
  forall tbl T,
    panicked (addAttrs tbl [] attrs) = None ->
    table_le (table (addAttrs tbl [] attrs)) T ->
    addAttrs T [] attrs
    = {| table := T; logged := logged (addAttrs tbl [] attrs);
         panicked := None |}.
Proof.
  induction attrs as [|a attrs IH]; intros tbl T; [done|].
  cbn [addAttrs].
  destruct (addAttr tbl a) as [[tbl' es]|msg] eqn:Ha; [|done].
  rewrite (addAttrs_log attrs tbl'). cbn [table logged panicked].
  intros Hp Hle.
  assert (Hstep : addAttr T a = Ret (T, es)).
  { apply (addAttr_absorbed tbl a tbl' es T Ha).
    eapply table_le_trans; [apply (addAttrs_grows attrs tbl' [])|done]. }
  rewrite Hstep, (addAttrs_log attrs T), (IH tbl' T Hp Hle). done.
Qed.

(** Scanning the same parsed document a second time, without a reset in
    between, changes nothing in the table and logs the same rejections,
    provided the first scan did not panic. *)
Theorem AddFile_rescan b rd :
  panicked (AddFile b rd).2 = None ->
  AddFile (AddFile b rd).1 rd
  = ((AddFile b rd).1,
     {| table := eventTemplates (AddFile b rd).1;
        logged := logged (AddFile b rd).2;
        panicked := None |}).
Proof.
  destruct rd as [doc|err]; [|done]. cbn.
  rewrite !addNodes_concat. intros Hp.
  pose proof (addAttrs_grows (concat doc) (eventTemplates b) []) as Hgrow.
  rewrite (addAttrs_absorbed (concat doc) (eventTemplates b)
             (table (addAttrs (eventTemplates b) [] (concat doc))) Hp
             (table_le_refl _)).
  done.
Qed.

Lemma AddFile_rescan_witness :
  let b := RouteBindings "route" None in
  let rd : Document + error :=
    inl [[attr "class"; attr "@fir:save:ok"]; [attr "@fir:save:oops"]] in
  AddFile (AddFile b rd).1 rd
  = ((AddFile b rd).1,
     {| table := eventTemplates (AddFile b rd).1;
        logged := logged (AddFile b rd).2;
        panicked := None |}).
Proof.
  intros b rd. apply (AddFile_rescan b rd). reflexivity.
Defined.

End rescan.

(** ** Keys the scanner rejects, and keys it panics on *)

Section key_forms.
Import GoStrings dom.

Lemma append_assoc a b c : (a +:+ b) +:+ c = a +:+ b +:+ c.
Proof.
  induction a as [|d a IH]; [done|]. by rewrite !(append_cons d), IH.
Qed.



(** What follows the colon of [ev:rest] decides whether the key itself
    starts with the [x-on:fir:] prefix. *)
Lemma TrimPrefix_event ev rest :
  has_byte ":" ev = false -> HasPrefix rest "fir:" = false ->
  TrimPrefix (ev +:+ ":" +:+ rest) "x-on:fir:" = ev +:+ ":" +:+ rest.
Proof.
  intros Hev Hrest. unfold TrimPrefix.
  destruct (HasPrefix (ev +:+ ":" +:+ rest) "x-on:fir:") eqn:H; [|done].
  exfalso.
  change "x-on:fir:" with ("x-on" +:+ String ":" "fir:") in H.
  change (":" +:+ rest) with (String ":" rest) in H.
  apply HasPrefix_colon in H as [_ H]; [congruence|done..].
Qed.

Lemma trimmed_event prefix ev rest :
  prefix = "@fir:" \/ prefix = "x-on:fir:" ->
  has_byte ":" ev = false -> HasPrefix rest "fir:" = false ->
  TrimPrefix (TrimPrefix (prefix +:+ ev +:+ ":" +:+ rest) "@fir:") "x-on:fir:"
  = ev +:+ ":" +:+ rest.
Proof.
  intros [->| ->] Hev Hrest.
  - rewrite TrimPrefix_app. by apply TrimPrefix_event.
  - change (TrimPrefix ("x-on:fir:" +:+ ev +:+ ":" +:+ rest) "@fir:")
      with ("x-on:fir:" +:+ ev +:+ ":" +:+ rest).
    apply TrimPrefix_app.
Qed.

Lemma genSplit_step sep c s :
  HasPrefix (String c s) sep = false ->
  genSplit sep 0 (String c s)
  = match genSplit sep 0 s with
    | piece :: pieces => String c piece :: pieces
    | [] => [String c ""]
    end.
Proof. intros H. cbn [genSplit]. by rewrite H. Qed.

(** Splitting on [::] after a colon-free piece. *)
Lemma genSplit_colons_after b t :
  has_byte ":" b = false ->
  genSplit "::" 0 (b +:+ "::" +:+ t) = b :: genSplit "::" 0 t.
Proof.
  induction b as [|e b IH].
  - intros _. reflexivity.
  - cbn [has_byte]. intros [He Hb]%orb_false_elim.
    rewrite (append_cons e b). rewrite genSplit_step.
    + by rewrite IH.
    + by apply HasPrefix_head_ne.
Qed.

Lemma Split_template_form a b t :
  has_byte ":" a = false -> has_byte ":" b = false -> b <> "" ->
  Split (a +:+ ":" +:+ b +:+ "::" +:+ t) "::"
  = (a +:+ ":" +:+ b) :: Split t "::".
Proof.
  intros Ha Hb Hne. unfold Split. induction a as [|d a IH].
  - rewrite !append_nil_l. destruct b as [|e b]; [done|].
    change (":" +:+ String e b +:+ "::" +:+ t)
      with (String ":" (String e b +:+ "::" +:+ t)).
    rewrite genSplit_step.
    + by rewrite genSplit_colons_after.
    + cbn [has_byte] in Hb. apply orb_false_elim in Hb as [He Hb].
      rewrite (append_cons e b). cbn [HasPrefix].
      by rewrite Ascii.eqb_refl, He.
  - cbn [has_byte] in Ha. apply orb_false_elim in Ha as [Hd Ha].
    rewrite !(append_cons d a). rewrite genSplit_step.
    + by rewrite IH.
    + by apply HasPrefix_head_ne.
Qed.

(** The first segment of a split on dots keeps a dot-free head. *)
Lemma Split_dot_head x t :
  has_byte "." x = false ->
  exists h l, Split t "." = h :: l /\ Split (x +:+ t) "." = (x +:+ h) :: l.
Proof.
  intros Hx. unfold Split.
  destruct (genSplit "." 0 t) as [|h l] eqn:Ht;
    [by apply genSplit_nonempty in Ht|].
  exists h, l. split; [done|].
  induction x as [|c x IH]; [done|].
  cbn [has_byte] in Hx. apply orb_false_elim in Hx as [Hc Hx].
  rewrite !(append_cons c x). rewrite genSplit_step.
  - by rewrite IH.
  - by apply HasPrefix_head_ne.
Qed.

(** A template on a pending or done binding is a format error, whatever
    the template name and the modifiers are: nothing is recorded and the
    scan goes on. *)
Theorem template_on_pending_done_rejected tbl prefix ev st rest :
  prefix = "@fir:" \/ prefix = "x-on:fir:" ->
  has_byte ":" ev = false -> has_byte "." ev = false ->
  st = "pending" \/ st = "done" ->
  exists eventns,
    addAttr tbl (attr (prefix +:+ ev +:+ ":" +:+ st +:+ "::" +:+ rest))
    = Ret (tbl, [eventFormatError eventns]).
Proof.
  intros Hp Hc Hd Hst. unfold addAttr, continue_with. cbn [Key attr].
  rewrite HasPrefix_binding by done.
  rewrite trimmed_event; [|done..|by destruct Hst as [->| ->]].
  destruct (3 <? _); [by eexists|].
  assert (Hx : has_byte "." (ev +:+ ":" +:+ st +:+ "::") = false).
  { rewrite !has_byte_app, Hd. by destruct Hst as [->| ->]. }
  destruct (Split_dot_head (ev +:+ ":" +:+ st +:+ "::") rest Hx)
    as (h & l & _ & Hsplit).
  replace (ev +:+ ":" +:+ st +:+ "::" +:+ rest)
    with ((ev +:+ ":" +:+ st +:+ "::") +:+ rest)
    by (by rewrite !append_assoc).
  rewrite Hsplit. cbn [length Nat.ltb Nat.leb]. rewrite index_first, bind_Ret.
  replace ((ev +:+ ":" +:+ st +:+ "::") +:+ h)
    with (ev +:+ ":" +:+ st +:+ "::" +:+ h)
    by (by rewrite !append_assoc).
  unfold bindEventns, continue_with.
  rewrite Split_template_form;
    [|done|by destruct Hst as [->| ->]..].
  pose proof (genSplit_nonempty "::" 0 h) as Hne. fold (Split h "::") in Hne.
  destruct (Split h "::") as [|name more]; [done|].
  cbn [length Nat.eqb]. destruct more as [|? ?]; cbn [length Nat.ltb Nat.leb].
  - rewrite index_first, bind_Ret.
    change (":" +:+ st) with (String ":" st).
    rewrite Split_byte_app by done.
    rewrite (Split_absent ":" "" st) by (by destruct Hst as [->| ->]).
    cbn [length Nat.eqb negb]. rewrite index_second, bind_Ret.
    destruct Hst as [->| ->]; by eexists.
  - by eexists.
Qed.

Lemma template_on_pending_done_rejected_witness :
  exists eventns,
    addAttr ∅ (attr "@fir:save:pending::spinner.once")
    = Ret (∅, [eventFormatError eventns]).
Proof.
  apply (template_on_pending_done_rejected ∅ "@fir:" "save" "pending"
           "spinner.once");
    [by left | reflexivity | reflexivity | by left].
Defined.





End key_forms.

(** ** What a scan records and where *)

Section scan_results.
Import GoStrings dom.

(** An attribute that is logged records nothing, and no attribute logs
    more than one entry. *)
Theorem rejected_attribute_records_nothing tbl a :
  match addAttr tbl a with
  | Ret (tbl', es) =>
      es = [] \/ exists eventns, es = [eventFormatError eventns] /\ tbl' = tbl
  | Panic _ => True
  end.
Proof.
  destruct (addAttr_effect a) as [[msg H]|[H|[[e H]|(key & H)]]];
    rewrite H; [done|by left| |by left].
  right. by exists e.
Qed.

(** The names of a key are listed once each, and they are the names
    recorded under it. *)
Theorem TemplateNames_exact b key :
  NoDup (TemplateNames b key) /\
  forall name,
    name ∈ TemplateNames b key <->
    exists names, eventTemplates b !! key = Some names /\ name ∈ names.
Proof.
  unfold TemplateNames. split; [apply NoDup_elements|].
  intros name. rewrite elem_of_elements.
  destruct (eventTemplates b !! key) as [names|]; cbn.
  - split; [by exists names|]. by intros (? & [= <-] & ?).
  - split; [by intros ?%not_elem_of_empty|]. by intros (? & ? & ?).
Qed.



(** A document without binding attributes leaves the table as it was and
    logs nothing. *)
Theorem AddFile_ignores_other_attributes b doc :
  Forall (Forall (fun a =>
            HasPrefix (Key a) "@fir:" = false /\
            HasPrefix (Key a) "x-on:fir:" = false)) doc ->
  AddFile b (inl doc)
  = (b, {| table := eventTemplates b; logged := []; panicked := None |}).
Proof.
  intros Hdoc. cbn [AddFile]. rewrite addNodes_concat.
  assert (Hscan : forall attrs tbl,
    Forall (fun a => HasPrefix (Key a) "@fir:" = false /\
                     HasPrefix (Key a) "x-on:fir:" = false) attrs ->
    addAttrs tbl [] attrs
    = {| table := tbl; logged := []; panicked := None |}).
  { induction 1 as [|a attrs [H1 H2] _ IH]; [done|].
    cbn [addAttrs]. unfold addAttr. by rewrite H1, H2. }
  rewrite Hscan.
  - by destruct b.
  - apply Forall_concat. exact Hdoc.
Qed.

Lemma AddFile_ignores_other_attributes_witness :
  AddFile (RouteBindings "route" None)
    (inl [[attr "class"; attr "id"]; [attr "@click"; attr "x-on:click"]])
  = (RouteBindings "route" None,
     {| table := ∅; logged := []; panicked := None |}).
Proof.
  apply (AddFile_ignores_other_attributes (RouteBindings "route" None)).
  repeat constructor.
Defined.

(** Scans record the no-fragment name only: a table that binds nothing
    else before [AddFile] binds nothing else after it. *)
Theorem AddFile_records_no_fragment_only b rd key :
  (forall k, Forall (fun name => name = "-") (TemplateNames b k)) ->
  Forall (fun name => name = "-") (TemplateNames (AddFile b rd).1 key).
Proof.
  intros Hb. destruct rd as [doc|err]; [|apply Hb].
  cbn [AddFile fst]. rewrite addNodes_concat.
  assert (Hscan : forall attrs tbl log,
    (forall key name, name ∈ default ∅ (tbl !! key) -> name = "-") ->
    forall key name,
      name ∈ default ∅ (table (addAttrs tbl log attrs) !! key) -> name = "-").
  { induction attrs as [|a attrs IH]; intros tbl log Htbl; [done|].
    cbn [addAttrs].
    destruct (addAttr_effect a) as [[msg H]|[H|[[e H]|(k & H)]]];
      rewrite H; [done|by apply IH..|].
    apply IH. intros k' name. destruct (decide (k = k')) as [->|Hne].
    - rewrite lookup_insert_eq. cbn [default from_option].
      unfold Datatypes.id.
      intros [->%elem_of_singleton|Hin]%elem_of_union; [done|].
      by apply (Htbl k').
    - rewrite lookup_insert_ne by done. apply Htbl. }
  apply Forall_forall. intros name. unfold TemplateNames.
  cbn [eventTemplates]. intros Hin%elem_of_elements.
  apply (Hscan (concat doc) (eventTemplates b) [] ) with key; [|done].
  intros k n Hn. specialize (Hb k). rewrite Forall_forall in Hb.
  apply Hb. by apply elem_of_elements.
Qed.

Lemma AddFile_records_no_fragment_only_witness :
  Forall (fun name => name = "-")
    (TemplateNames
       (AddFile (RouteBindings "route" None)
          (inl [[attr "@fir:save:ok"; attr "@fir:save:done"]])).1 "save:ok").
Proof.
  apply (AddFile_records_no_fragment_only (RouteBindings "route" None)).
  intros k. unfold TemplateNames. cbn. rewrite lookup_empty. cbn.
  rewrite elements_empty. constructor.
Defined.

End scan_results.

(** ** Rounds of reconciliation *)

Section rounds.
Import fir.

(** Where no candidate is recorded the new mapping is the one the loop
    started with. *)
Lemma setNewErrors_all_ok events :
  Forall (fun e => dom.State e = eventstate.OK) events ->
  forall m acc, setNewErrors events m acc = Ret (m, acc ++ events).
Proof.
  induction 1 as [|e events He _ IH]; intros m acc; cbn [setNewErrors].
  - by rewrite app_nil_r.
  - rewrite He. change (String.eqb eventstate.OK eventstate.OK) with true.
    cbn match. by rewrite IH, <- app_assoc.
Qed.

Lemma unsetPrevErrors_all l :
  unsetPrevErrors l ∅ [] = (fun kv => clearEvent kv.1 kv.2) <$> l.
Proof.
  induction l as [|[k v] l IH]; [done|].
  rewrite unsetPrevErrors_cons, lookup_empty, IH. done.
Qed.

Lemma unsetPrevErrors_renewed l new :
  (forall k v, (k, v) ∈ l -> is_Some (new !! k)) ->
  unsetPrevErrors l new [] = [].
Proof.
  induction l as [|[k v] l IH]; intros H; [done|].
  rewrite unsetPrevErrors_cons.
  destruct (H k v) as [? ->]; [by apply elem_of_cons; left|].
  apply IH. intros k' v' Hin. apply (H k' v'). by apply elem_of_cons; right.
Qed.

(** A round whose candidates are all ok (or that has none) clears every
    error that was active: one clearing event per entry of the previous
    mapping follows the candidates, and the session's entry becomes the
    empty mapping. *)
Theorem ok_round_clears_all ctx ev events sid prev :
  pubsub.SessionID ev = Some sid ->
  loadPrevErrors (cache (ctx_route ctx)) sid = Ret prev ->
  Forall (fun e => dom.State e = eventstate.OK) events ->
  prev <> ∅ ->
  exists clears,
    returned (trackErrors ctx ev events) = Ret (events ++ clears) /\
    length clears = size prev /\
    (forall ty tg, prev !! ty = Some tg <-> clearEvent ty tg ∈ clears) /\
    cache_after (trackErrors ctx ev events)
    = <[sid := MapStringString ∅]> (cache (ctx_route ctx)).
Proof.
  intros Hsid Hprev Hok Hne.
  pose proof (setNewErrors_all_ok events Hok ∅ []) as Hnew.
  rewrite app_nil_l in Hnew.
  rewrite (trackErrors_unfold ctx ev events sid prev ∅) by done.
  cbv zeta. cbn [cache_after returned]. rewrite unsetPrevErrors_all.
  exists ((fun kv => clearEvent kv.1 kv.2) <$> map_to_list prev).
  split_and!.
  - destruct (length _ =? 0) eqn:Hlen; [|done].
    apply Nat.eqb_eq, nil_length_inv, app_eq_nil in Hlen as [_ Hlen].
    apply fmap_nil_inv, map_to_list_empty_iff in Hlen. done.
  - by rewrite length_fmap, length_map_to_list.
  - intros ty tg. rewrite <- elem_of_map_to_list, list_elem_of_fmap. split.
    + intros H. by exists (ty, tg).
    + intros ([k v] & [= -> ->] & H). done.
  - done.
Qed.

Lemma ok_round_clears_all_witness :
  let cache0 : gmap string any :=
    {[ "session-1" :=
         MapStringString {[ "fir:form:error" := "#form";
                            "fir:save:pending" := "#save" ]} ]} in
  let ctx := exampleCtx ∅ None cache0 in
  let ev := exampleEvent "form" eventstate.OK None Nil in
  exists clears,
    returned (trackErrors ctx ev [rawEvent "form" ev "form:ok"])
    = Ret ([rawEvent "form" ev "form:ok"] ++ clears) /\
    length clears
    = size ({[ "fir:form:error" := "#form"; "fir:save:pending" := "#save" ]}
              : gmap string string) /\
    (forall ty tg,
       ({[ "fir:form:error" := "#form"; "fir:save:pending" := "#save" ]}
          : gmap string string) !! ty = Some tg <->
       clearEvent ty tg ∈ clears) /\
    cache_after (trackErrors ctx ev [rawEvent "form" ev "form:ok"])
    = <["session-1" := MapStringString ∅]> cache0.
Proof.
  intros cache0 ctx ev.
  apply (ok_round_clears_all ctx ev [rawEvent "form" ev "form:ok"]
           "session-1"
           {[ "fir:form:error" := "#form"; "fir:save:pending" := "#save" ]}).
  - reflexivity.
  - reflexivity.
  - constructor; [reflexivity|constructor].
  - intros H. apply (f_equal (fun m => m !! "fir:form:error")) in H.
    vm_compute in H. discriminate H.
Defined.

(** An error that persists is sent again and never cleared: when every
    type of the previous mapping is the type of a candidate of this round
    that is not ok, the result is the candidates and nothing else. *)
Theorem renewed_errors_not_cleared ctx ev events sid prev :
  pubsub.SessionID ev = Some sid ->
  loadPrevErrors (cache (ctx_route ctx)) sid = Ret prev ->
  Forall trackable events ->
  events <> [] ->
  (forall ty, is_Some (prev !! ty) ->
     exists e, e ∈ events /\ dom.State e <> eventstate.OK /\
               dom.Type' e = Some ty) ->
  returned (trackErrors ctx ev events) = Ret events.
Proof.
  intros Hsid Hprev Hev Hne Hrenew.
  destruct (setNewErrors_returns events Hev ∅ []) as [new Hnew].
  rewrite app_nil_l in Hnew.
  rewrite (trackErrors_unfold ctx ev events sid prev new) by done.
  cbv zeta. cbn [returned].
  rewrite unsetPrevErrors_renewed, app_nil_r.
  - destruct events; [done|]. reflexivity.
  - intros k v Hin%elem_of_map_to_list.
    destruct (Hrenew k) as (e & He & Hst & Hty); [by eexists|].
    destruct (setNewErrors_complete _ _ _ _ _ Hnew) as [_ Hrec].
    destruct (Hrec e He Hst) as (ty & tg & Hty' & _ & Hsome).
    congruence.
Qed.

Lemma renewed_errors_not_cleared_witness :
  let cache0 : gmap string any :=
    {[ "session-1" := MapStringString {[ "fir:form:error" := "#form" ]} ]} in
  let ev := exampleEvent "form" eventstate.Error (Some "#form") (Str "bad") in
  returned (trackErrors (exampleCtx ∅ None cache0) ev
              [rawEvent "form" ev "form:error"])
  = Ret [rawEvent "form" ev "form:error"].
Proof.
  intros cache0 ev.
  apply (renewed_errors_not_cleared (exampleCtx ∅ None cache0) ev
           [rawEvent "form" ev "form:error"] "session-1"
           {[ "fir:form:error" := "#form" ]}).
  - reflexivity.
  - reflexivity.
  - constructor; [|constructor]. right. split; eexists; reflexivity.
  - discriminate.
  - intros ty [tg Hty].
    exists (rawEvent "form" ev "form:error").
    split_and!; [apply elem_of_cons; by left|discriminate|].
    destruct (decide (ty = "fir:form:error")) as [->|Hne]; [reflexivity|].
    by rewrite lookup_singleton_ne in Hty.
Defined.

(** The cache entries of other sessions are never touched, whatever the
    round does and however it ends. *)
Lemma trackErrors_other_sessions ctx ev events sid :
  pubsub.SessionID ev <> Some sid ->
  cache_after (trackErrors ctx ev events) !! sid
  = cache (ctx_route ctx) !! sid.
Proof.
  intros Hsid. unfold trackErrors.
  destruct (pubsub.SessionID ev) as [sid'|]; cbn [deref]; [|done].
  destruct (loadPrevErrors _ _) as [prev|]; [|done]. rewrite bind_Ret.
  destruct (setNewErrors events ∅ []) as [[new out]|]; [|done].
  rewrite bind_Ret. cbn [cache_after]. apply lookup_insert_ne. congruence.
Qed.

(** A round leaves a cache whose entries are all of the type it can load
    again. *)
Lemma trackErrors_cache_wf ctx ev events :
  cache_wf (cache (ctx_route ctx)) ->
  cache_wf (cache_after (trackErrors ctx ev events)).
Proof.
  intros Hwf. unfold trackErrors.
  destruct (pubsub.SessionID ev) as [sid'|]; cbn [deref]; [|done].
  destruct (loadPrevErrors _ _) as [prev|]; [|done]. rewrite bind_Ret.
  destruct (setNewErrors events ∅ []) as [[new out]|]; [|done].
  rewrite bind_Ret. cbn [cache_after]. intros sid v.
  destruct (decide (sid' = sid)) as [->|Hne].
  - rewrite lookup_insert_eq. intros [= <-]. by eexists.
  - rewrite lookup_insert_ne by done. apply Hwf.
Qed.

Lemma loadPrevErrors_wf c sid :
  cache_wf c -> exists prev, loadPrevErrors c sid = Ret prev.
Proof.
  intros Hwf. unfold loadPrevErrors.
  destruct (c !! sid) as [v|] eqn:Hv; [|by eexists].
  destruct (Hwf sid v Hv) as [m ->]. by eexists.
Qed.

End rounds.

(** ** The render path as a whole *)

Section render_path.
Import fir.

Variable minify : string -> string + error.
Variable newRouteDOMContext : RouteContext -> gmap string any -> any.

Lemma renderDOMEvents_unfold ctx ev id events :
  pubsub.ID ev = Some id ->
  renderTemplates minify newRouteDOMContext ctx ev
    (id +:+ ":" +:+ pubsub.State ev)
    (dom.TemplateNames (bindings (ctx_route ctx))
       (id +:+ ":" +:+ pubsub.State ev)) []
  = Ret events ->
  renderDOMEvents minify newRouteDOMContext ctx ev
  = trackErrors ctx ev events.
Proof.
  intros Hid Hrender. unfold renderDOMEvents.
  rewrite Hid. cbn [deref]. rewrite bind_Ret. by rewrite Hrender.
Qed.

Lemma renderDOMEvents_cache ctx ev :
  cache_after (renderDOMEvents minify newRouteDOMContext ctx ev)
  = cache (ctx_route ctx)
  \/ exists events,
       cache_after (renderDOMEvents minify newRouteDOMContext ctx ev)
       = cache_after (trackErrors ctx ev events).
Proof.
  unfold renderDOMEvents.
  destruct (_ ≫= _) as [events|msg]; [right; by exists events|by left].
Qed.

(** The render path leaves the cache entries of other sessions as they
    were, however it ends. *)
Theorem render_path_other_sessions ctx ev sid :
  pubsub.SessionID ev <> Some sid ->
  cache_after (renderDOMEvents minify newRouteDOMContext ctx ev) !! sid
  = cache (ctx_route ctx) !! sid.
Proof.
  intros Hsid.
  destruct (renderDOMEvents_cache ctx ev) as [->|[events ->]]; [done|].
  by apply trackErrors_other_sessions.
Qed.

(** The render path only ever stores a map[string]string: over a cache
    whose entries are all of that type it leaves such a cache, so that the
    next round loads the previous errors of any session without the panic
    on the type of the entry. *)
Theorem render_path_keeps_cache_loadable ctx ev sid :
  cache_wf (cache (ctx_route ctx)) ->
  cache_wf (cache_after (renderDOMEvents minify newRouteDOMContext ctx ev)) /\
  exists prev,
    loadPrevErrors
      (cache_after (renderDOMEvents minify newRouteDOMContext ctx ev)) sid
    = Ret prev.
Proof.
  intros Hwf.
  assert (Hafter :
    cache_wf (cache_after (renderDOMEvents minify newRouteDOMContext ctx ev))).
  { destruct (renderDOMEvents_cache ctx ev) as [->|[events ->]]; [done|].
    by apply trackErrors_cache_wf. }
  split; [done|]. by apply loadPrevErrors_wf.
Qed.

(** A bus event whose key has no binding, in a session with no active
    error, gives exactly the fallback event, and the session's entry is
    the empty mapping. *)
Theorem unbound_event_falls_back ctx ev id sid :
  pubsub.ID ev = Some id ->
  pubsub.SessionID ev = Some sid ->
  loadPrevErrors (cache (ctx_route ctx)) sid = Ret ∅ ->
  dom.eventTemplates (bindings (ctx_route ctx))
    !! (id +:+ ":" +:+ pubsub.State ev) = None ->
  returned (renderDOMEvents minify newRouteDOMContext ctx ev)
  = Ret [rawEvent id ev (id +:+ ":" +:+ pubsub.State ev)] /\
  cache_after (renderDOMEvents minify newRouteDOMContext ctx ev)
  = <[sid := MapStringString ∅]> (cache (ctx_route ctx)).
Proof.
  intros Hid Hsid Hprev Hkey.
  rewrite (renderDOMEvents_unfold ctx ev id []); [|done|].
  2:{ unfold dom.TemplateNames. rewrite Hkey. cbn [default from_option].
      by rewrite elements_empty. }
  rewrite (trackErrors_unfold ctx ev [] sid ∅ ∅) by done.
  cbv zeta. cbn [returned cache_after]. rewrite map_to_list_empty.
  cbn [unsetPrevErrors app length Nat.eqb]. rewrite Hid. by cbn.
Qed.

(** A key bound to the no-fragment name alone gives one event that carries
    the detail of the bus event unrendered, with no call to the template
    engine; in a session with no active error that is the whole result,
    and the event is recorded active exactly when its state is not ok. *)
Theorem no_fragment_passes_detail ctx ev id sid :
  pubsub.ID ev = Some id ->
  pubsub.SessionID ev = Some sid ->
  loadPrevErrors (cache (ctx_route ctx)) sid = Ret ∅ ->
  dom.eventTemplates (bindings (ctx_route ctx))
    !! (id +:+ ":" +:+ pubsub.State ev) = Some {["-"]} ->
  (pubsub.State ev = eventstate.OK \/ is_Some (pubsub.Target ev)) ->
  returned (renderDOMEvents minify newRouteDOMContext ctx ev)
  = Ret [rawEvent id ev (id +:+ ":" +:+ pubsub.State ev)] /\
  cache_after (renderDOMEvents minify newRouteDOMContext ctx ev) !! sid
  = Some (MapStringString
            (if String.eqb (pubsub.State ev) eventstate.OK then ∅
             else match pubsub.Target ev with
                  | Some tg =>
                      {[ "fir:" +:+ id +:+ ":" +:+ pubsub.State ev := tg ]}
                  | None => ∅
                  end)).
Proof.
  intros Hid Hsid Hprev Hkey Hev.
  rewrite (renderDOMEvents_unfold ctx ev id
             [rawEvent id ev (id +:+ ":" +:+ pubsub.State ev)]); [|done|].
  2:{ unfold dom.TemplateNames. rewrite Hkey. cbn [default from_option].
      unfold Datatypes.id. rewrite elements_singleton.
      cbn [renderTemplates]. unfold renderTemplate.
      change (String.eqb "-" "-") with true. cbn match.
      rewrite Hid. by cbn. }
  unfold trackErrors. rewrite Hsid. cbn [deref]. rewrite Hprev, bind_Ret.
  cbn [setNewErrors rawEvent dom.State dom.Type' dom.Target].
  destruct (String.eqb (pubsub.State ev) eventstate.OK) eqn:Hst.
  - rewrite bind_Ret. cbn [cache_after returned].
    rewrite map_to_list_empty. cbn. by rewrite lookup_insert_eq.
  - destruct Hev as [Hok|[tg Htg]].
    { apply String.eqb_neq in Hst. done. }
    rewrite Htg. cbn [fir deref]. rewrite !bind_Ret.
    cbn [cache_after returned]. rewrite map_to_list_empty. cbn.
    by rewrite lookup_insert_eq.
Qed.

(** For a bus event in the error state whose detail is neither nil nor a
    map[string]any, no named template gives an event and none is rendered:
    the loop leaves the events as they were, without a panic even for the
    pass-through name. *)
Theorem error_detail_of_other_shape_skips ctx ev key names acc :
  pubsub.State ev = eventstate.Error ->
  isNil (pubsub.Detail ev) = false ->
  (forall errs, pubsub.Detail ev <> MapStringAny errs) ->
  Forall (fun name => name <> "-") names ->
  renderTemplates minify newRouteDOMContext ctx ev key names acc = Ret acc.
Proof.
  intros Hst Hnil Hmap Hnames. revert acc.
  induction Hnames as [|name names Hname _ IH]; intros acc; [done|].
  cbn [renderTemplates].
  assert (renderTemplate minify newRouteDOMContext ctx ev key name
          = Ret None) as ->.
  { unfold renderTemplate. apply String.eqb_neq in Hname.
    rewrite Hname, Hst, Hnil.
    change (String.eqb eventstate.Error eventstate.Error) with true.
    cbn [andb negb]. destruct (pubsub.Detail ev); try done.
    by destruct (Hmap m). }
  rewrite bind_Ret. cbn [option_list]. rewrite app_nil_r. apply IH.
Qed.

(** Outside the error state an empty render is still sent: with a nil
    template handle or the empty template name, a named template gives an
    event whose detail is the empty string. *)
Theorem empty_render_sent_when_not_error ctx ev key name :
  pubsub.State ev <> eventstate.Error ->
  name <> "-" ->
  template (ctx_route ctx) = None \/ name = "" ->
  renderTemplate minify newRouteDOMContext ctx ev key name
  = Ret (Some {| dom.Type' := Some ("fir:" +:+ key +:+ ":" +:+ name);
                 dom.Target := pubsub.Target ev;
                 dom.Detail := Str "";
                 dom.ID := key;
                 dom.State := pubsub.State ev |}).
Proof.
  intros Hst%String.eqb_neq Hname%String.eqb_neq Hempty.
  unfold renderTemplate. rewrite Hname, Hst. cbn [andb].
  assert (buildTemplateValue minify (template (ctx_route ctx)) name
            (pubsub.Detail ev) = Traced [] (Ret ("", None))) as ->.
  { destruct Hempty as [->| ->].
    - apply buildTemplateValue_nil_template.
    - apply buildTemplateValue_empty_name. }
  reflexivity.
Qed.

(** The type of every candidate is [fir:] and the key, followed for a
    named template by one colon and the template name; the candidate of
    the no-fragment name carries the detail of the bus event, that of a
    named template a rendered string. *)
Lemma renderTemplate_type ctx ev key name e :
  renderTemplate minify newRouteDOMContext ctx ev key name = Ret (Some e) ->
  (name = "-" /\ dom.Type' e = Some ("fir:" +:+ key) /\
   dom.Detail e = pubsub.Detail ev) \/
  (name <> "-" /\ dom.Type' e = Some ("fir:" +:+ key +:+ ":" +:+ name) /\
   exists value, dom.Detail e = Str value).
Proof.
  unfold renderTemplate. destruct (String.eqb_spec name "-") as [->|Hne].
  - destruct (pubsub.ID ev) as [id|]; [|done]. cbn. intros [= <-].
    left. by repeat split.
  - match goal with
    | |- context [match ?sh with Some _ => _ | None => Ret None end] =>
        destruct sh as [templateData|]
    end; [|done].
    destruct (outcome _) as [[value [err|]]|]; [done| |done].
    rewrite bind_Ret. destruct (_ && _); [done|]. intros [= <-].
    right. split_and!; [done|done|by eexists].
Qed.

Theorem candidate_types ctx ev key names out :
  renderTemplates minify newRouteDOMContext ctx ev key names [] = Ret out ->
  Forall (fun e =>
    ("-" ∈ names /\ dom.Type' e = Some ("fir:" +:+ key) /\
     dom.Detail e = pubsub.Detail ev) \/
    (exists name value,
       name ∈ names /\ name <> "-" /\
       dom.Type' e = Some ("fir:" +:+ key +:+ ":" +:+ name) /\
       dom.Detail e = Str value)) out.
Proof.
  assert (Hgen : forall acc,
    renderTemplates minify newRouteDOMContext ctx ev key names acc = Ret out ->
    exists new, out = acc ++ new /\
      Forall (fun e =>
        ("-" ∈ names /\ dom.Type' e = Some ("fir:" +:+ key) /\
         dom.Detail e = pubsub.Detail ev) \/
        (exists name value,
           name ∈ names /\ name <> "-" /\
           dom.Type' e = Some ("fir:" +:+ key +:+ ":" +:+ name) /\
           dom.Detail e = Str value)) new).
  { induction names as [|name names IH]; intros acc; cbn [renderTemplates].
    - intros [= <-]. exists []. by rewrite app_nil_r.
    - destruct (renderTemplate _ _ _ _ _ name) as [r|] eqn:Hr; [|done].
      rewrite bind_Ret. intros (new & -> & Hnew)%IH.
      exists (option_list r ++ new). rewrite app_assoc. split; [done|].
      apply Forall_app. split.
      + destruct r as [e|]; [|done]. cbn. constructor; [|done].
        destruct (renderTemplate_type ctx ev key name e Hr)
          as [(-> & ? & ?)|(? & ? & [value ?])].
        * left. split; [by apply elem_of_cons; left|done].
        * right. exists name, value.
          split; [by apply elem_of_cons; left|done].
      + eapply Forall_impl; [exact Hnew|]. intros e [(? & ?)|(n & v & ? & ?)].
        * left. split; [by apply elem_of_cons; right|done].
        * right. exists n, v. split; [by apply elem_of_cons; right|done]. }
  intros (new & -> & Hnew)%Hgen. done.
Qed.

(** When [buildTemplateValue] returns an error the string beside it is
    empty; it makes at most two calls; and what it hands to the minifier
    is the string given under the pass-through name or what the template
    engine wrote, never anything else and never after a failed
    execution. *)
Theorem buildTemplateValue_calls t name data :
  length (calls (buildTemplateValue minify t name data)) <= 2 /\
  (forall value err,
     outcome (buildTemplateValue minify t name data) = Ret (value, Some err) ->
     value = "") /\
  (forall raw,
     callMinify raw ∈ calls (buildTemplateValue minify t name data) ->
     (name = "_fir_html" /\ data = Str raw) \/
     (name <> "_fir_html" /\
      exists t', t = Some t' /\ ExecuteTemplate t' name data = inl raw)).
Proof.
  destruct t as [t|].
  2:{ rewrite buildTemplateValue_nil_template. cbn. split_and!; [lia|done|].
      by intros raw ?%not_elem_of_nil. }
  destruct (decide (name = "")) as [->|Hne].
  { rewrite buildTemplateValue_empty_name. cbn. split_and!; [lia|done|].
    by intros raw ?%not_elem_of_nil. }
  destruct (decide (name = "_fir_html")) as [->|Hsent].
  - destruct data;
      try (cbn; split_and!; [lia|done|by intros raw ?%not_elem_of_nil]).
    rewrite buildTemplateValue_sentinel_string. cbn. split_and!; [lia| |].
    + unfold minifiedOrError. destruct (minify s); by intros ? ? [= <- _].
    + intros raw [= ->]%list_elem_of_singleton. by left.
  - rewrite buildTemplateValue_named by done.
    destruct (ExecuteTemplate t name data) as [raw|err] eqn:Hexec; cbn.
    + split_and!; [lia| |].
      * unfold minifiedOrError. destruct (minify raw); by intros ? ? [= <- _].
      * intros raw' [Hin|Hin]%elem_of_cons; [done|].
        apply list_elem_of_singleton in Hin as [= ->].
        right. split; [done|]. by exists t.
    + split_and!; [lia|by intros ? ? [= <- _]|].
      intros raw' Hin%list_elem_of_singleton. done.
Qed.

(** With a template handle and a template name that is not empty the two
    copies of [buildTemplateValue] do the same, call for call. *)
Theorem buildTemplateValue_copies_agree t name data :
  name <> "" ->
  part_000.buildTemplateValue minify (Some t) name data
  = buildTemplateValue minify (Some t) name data.
Proof.
  intros Hne. destruct (decide (name = "_fir_html")) as [->|Hsent].
  - unfold part_000.buildTemplateValue, buildTemplateValue. reflexivity.
  - by rewrite part_000_buildTemplateValue_named, buildTemplateValue_named.
Qed.

End render_path.

Lemma render_path_other_sessions_witness :
  let cache0 : gmap string any :=
    {[ "session-2" := MapStringString {[ "fir:form:error" := "#form" ]} ]} in
  let ctx := exampleCtx {[ "like:ok" := {["-"]} ]} None cache0 in
  let ev := exampleEvent "like" eventstate.OK (Some "#likes") (Int 42) in
  fir.cache_after (fir.renderDOMEvents exampleMinify exampleDOMContext ctx ev)
    !! "session-2"
  = cache0 !! "session-2".
Proof.
  intros cache0 ctx ev.
  apply (render_path_other_sessions exampleMinify exampleDOMContext ctx ev
           "session-2").
  discriminate.
Defined.

Lemma render_path_keeps_cache_loadable_witness :
  let ctx := exampleCtx {[ "like:ok" := {["-"]} ]} None ∅ in
  let ev := exampleEvent "like" eventstate.OK (Some "#likes") (Int 42) in
  cache_wf
    (fir.cache_after
       (fir.renderDOMEvents exampleMinify exampleDOMContext ctx ev)) /\
  exists prev,
    fir.loadPrevErrors
      (fir.cache_after
         (fir.renderDOMEvents exampleMinify exampleDOMContext ctx ev))
      "session-1"
    = Ret prev.
Proof.
  intros ctx ev.
  apply (render_path_keeps_cache_loadable exampleMinify exampleDOMContext
           ctx ev "session-1").
  intros sid v. cbn. rewrite lookup_empty. discriminate.
Defined.

Lemma unbound_event_falls_back_witness :
  let ctx := exampleCtx {[ "like:ok" := {["-"]} ]} None ∅ in
  let ev := exampleEvent "save" eventstate.Done None (Int 7) in
  fir.returned (fir.renderDOMEvents exampleMinify exampleDOMContext ctx ev)
  = Ret [fir.rawEvent "save" ev ("save" +:+ ":" +:+ pubsub.State ev)] /\
  fir.cache_after (fir.renderDOMEvents exampleMinify exampleDOMContext ctx ev)
  = <["session-1" := MapStringString ∅]> ∅.
Proof.
  intros ctx ev.
  apply (unbound_event_falls_back exampleMinify exampleDOMContext ctx ev
           "save" "session-1"); reflexivity.
Defined.

Lemma no_fragment_passes_detail_witness :
  let ctx := exampleCtx {[ "save:pending" := {["-"]} ]} None ∅ in
  let ev := exampleEvent "save" eventstate.Pending (Some "#save") (Int 7) in
  fir.returned (fir.renderDOMEvents exampleMinify exampleDOMContext ctx ev)
  = Ret [fir.rawEvent "save" ev ("save" +:+ ":" +:+ pubsub.State ev)] /\
  fir.cache_after (fir.renderDOMEvents exampleMinify exampleDOMContext ctx ev)
    !! "session-1"
  = Some (MapStringString
            (if String.eqb (pubsub.State ev) eventstate.OK then ∅
             else match pubsub.Target ev with
                  | Some tg =>
                      {[ "fir:" +:+ "save" +:+ ":" +:+ pubsub.State ev := tg ]}
                  | None => ∅
                  end)).
Proof.
  intros ctx ev.
  apply (no_fragment_passes_detail exampleMinify exampleDOMContext ctx ev
           "save" "session-1");
    [reflexivity | reflexivity | reflexivity | reflexivity | ].
  right. by eexists.
Defined.

Lemma error_detail_of_other_shape_skips_witness :
  let ctx := exampleCtx ∅ (Some exampleTemplate) ∅ in
  let ev := exampleEvent "form" eventstate.Error (Some "#form") (Str "bad") in
  fir.renderTemplates exampleMinify exampleDOMContext ctx ev "form:error"
    ["name-error"; "_fir_html"] []
  = Ret [].
Proof.
  intros ctx ev.
  apply (error_detail_of_other_shape_skips exampleMinify exampleDOMContext
           ctx ev "form:error" ["name-error"; "_fir_html"] []).
  - reflexivity.
  - reflexivity.
  - discriminate.
  - constructor; [discriminate|]. constructor; [discriminate|constructor].
Defined.

Lemma empty_render_sent_when_not_error_witness :
  let ctx := exampleCtx ∅ None ∅ in
  let ev := exampleEvent "like" eventstate.OK (Some "#likes") (Int 42) in
  fir.renderTemplate exampleMinify exampleDOMContext ctx ev "like:ok" "count"
  = Ret (Some {| dom.Type' := Some ("fir:" +:+ "like:ok" +:+ ":" +:+ "count");
                 dom.Target := pubsub.Target ev;
                 dom.Detail := Str "";
                 dom.ID := "like:ok";
                 dom.State := pubsub.State ev |}).
Proof.
  intros ctx ev.
  apply (empty_render_sent_when_not_error exampleMinify exampleDOMContext
           ctx ev "like:ok" "count");
    [discriminate | discriminate | by left].
Defined.

Lemma candidate_types_witness :
  let ctx := exampleCtx ∅ (Some exampleTemplate) ∅ in
  let ev := exampleEvent "form" eventstate.OK (Some "#form") Nil in
  let names := ["-"; "name-error"] in
  Forall (fun e =>
    ("-" ∈ names /\ dom.Type' e = Some ("fir:" +:+ "form:ok") /\
     dom.Detail e = pubsub.Detail ev) \/
    (exists name value,
       name ∈ names /\ name <> "-" /\
       dom.Type' e = Some ("fir:" +:+ "form:ok" +:+ ":" +:+ name) /\
       dom.Detail e = Str value))
    [fir.rawEvent "form" ev "form:ok";
     {| dom.Type' := Some "fir:form:ok:name-error";
        dom.Target := Some "#form";
        dom.Detail := Str "<span>required</span>";
        dom.ID := "form:ok"; dom.State := eventstate.OK |}].
Proof.
  intros ctx ev names.
  apply (candidate_types exampleMinify exampleDOMContext ctx ev "form:ok"
           names).
  reflexivity.
Defined.

Lemma buildTemplateValue_copies_agree_witness :
  part_000.buildTemplateValue exampleMinify (Some exampleTemplate)
    "name-error" Nil
  = fir.buildTemplateValue exampleMinify (Some exampleTemplate)
      "name-error" Nil.
Proof.
  apply (buildTemplateValue_copies_agree exampleMinify exampleTemplate
           "name-error" Nil).
  discriminate.
Defined.

(** ** [domEvents] of part_000 *)

Section dom_events.
Import fir part_000_events.

Variable minify : string -> string + error.
Variable Marshal : list DOMEvent -> string + error.

Lemma domEventsLoop_plain t evs :
  Forall (fun e => pubsub_part_000.TemplateName e = None) evs ->
  forall acc, domEventsLoop minify t evs acc = Ret (acc ++ (plain <$> evs)).
Proof.
  induction 1 as [|e evs He _ IH]; intros acc; cbn [domEventsLoop].
  - by rewrite app_nil_r.
  - rewrite He, IH. by rewrite fmap_cons, <- app_assoc.
Qed.

(** Bus events without a template name become DOM events one for one, in
    order, with their type, target and data, whatever the template handle
    is; the result is their JSON, or nil when they cannot be marshalled. *)
Theorem domEvents_without_templates t evs :
  Forall (fun e => pubsub_part_000.TemplateName e = None) evs ->
  domEvents minify Marshal t evs
  = Ret (match Marshal (plain <$> evs) with
         | inl data => Some data
         | inr _ => None
         end).
Proof.
  intros H. unfold domEvents. rewrite domEventsLoop_plain by done.
  rewrite bind_Ret, app_nil_l. by destruct (Marshal _).
Qed.

(** With a template handle, and no use of the pass-through name, the loop
    of [domEvents] returns, in the order of the bus events: for a bus event
    without a template name, the event with its data; for one whose
    template executes and minifies, the event with the minified text as
    detail; and nothing for one whose execution or minification fails, which
    drops that event and no other. *)
Theorem domEvents_keeps_order t evs :
  Forall (fun e => pubsub_part_000.TemplateName e <> Some "_fir_html") evs ->
  domEventsLoop minify (Some t) evs []
  = Ret (omap (fun e =>
           match pubsub_part_000.TemplateName e with
           | None => Some (plain e)
           | Some name =>
               match ExecuteTemplate t name (pubsub_part_000.Data e) with
               | inl raw =>
                   match minify raw with
                   | inl value =>
                       Some {| Type' := pubsub_part_000.Type' e;
                               Target := pubsub_part_000.Target e;
                               Detail := Str value |}
                   | inr _ => None
                   end
               | inr _ => None
               end
           end) evs).
Proof.
  intros Hevs.
  assert (Hgen : forall acc,
    domEventsLoop minify (Some t) evs acc
    = Ret (acc ++ omap (fun e =>
             match pubsub_part_000.TemplateName e with
             | None => Some (plain e)
             | Some name =>
                 match ExecuteTemplate t name (pubsub_part_000.Data e) with
                 | inl raw =>
                     match minify raw with
                     | inl value =>
                         Some {| Type' := pubsub_part_000.Type' e;
                                 Target := pubsub_part_000.Target e;
                                 Detail := Str value |}
                     | inr _ => None
                     end
                 | inr _ => None
                 end
             end) evs)).
  { induction Hevs as [|e evs He _ IH]; intros acc;
      cbn [domEventsLoop omap list_omap].
    - by rewrite app_nil_r.
    - destruct (pubsub_part_000.TemplateName e) as [name|] eqn:Hname.
      + assert (name <> "_fir_html") as Hsent by congruence.
        rewrite part_000_buildTemplateValue_named by done.
        destruct (ExecuteTemplate t name _) as [raw|err]; cbn [outcome].
        * rewrite bind_Ret. unfold minifiedOrError.
          destruct (minify raw) as [value|err].
          -- rewrite IH. by rewrite <- app_assoc.
          -- apply IH.
        * rewrite bind_Ret. apply IH.
      + rewrite IH. by rewrite <- app_assoc. }
  apply (Hgen []).
Qed.


End dom_events.

Lemma domEvents_without_templates_witness :
  let evs := [exampleBusEvent "fir:like:ok" (Int 42) None;
              exampleBusEvent "fir:save:done" Nil None] in
  part_000_events.domEvents exampleMinify exampleMarshal None evs
  = Ret (match exampleMarshal (part_000_events.plain <$> evs) with
         | inl data => Some data
         | inr _ => None
         end).
Proof.
  intros evs.
  apply (domEvents_without_templates exampleMinify exampleMarshal None evs).
  repeat constructor.
Defined.

Lemma domEvents_keeps_order_witness :
  let evs := [exampleBusEvent "fir:form:error" Nil (Some "missing");
              exampleBusEvent "fir:like:ok" (Int 42) None;
              exampleBusEvent "fir:form:ok" Nil (Some "name-error")] in
  part_000_events.domEventsLoop exampleMinify (Some exampleTemplate) evs []
  = Ret (omap (fun e =>
           match pubsub_part_000.TemplateName e with
           | None => Some (part_000_events.plain e)
           | Some name =>
               match ExecuteTemplate exampleTemplate name
                       (pubsub_part_000.Data e) with
               | inl raw =>
                   match exampleMinify raw with
                   | inl value =>
                       Some {| part_000_events.Type' :=
                                 pubsub_part_000.Type' e;
                               part_000_events.Target :=
                                 pubsub_part_000.Target e;
                               part_000_events.Detail := Str value |}
                   | inr _ => None
                   end
               | inr _ => None
               end
           end) evs).
Proof.
  intros evs.
  apply (domEvents_keeps_order exampleMinify exampleTemplate evs).
  repeat (constructor; [discriminate|]). constructor.
Defined.

(** On the bus events of the example, the event whose template is
    undefined is dropped and the two others are kept, in order. *)
Example domEvents_drops_failed_render :
  part_000_events.domEventsLoop exampleMinify (Some exampleTemplate)
    [exampleBusEvent "fir:form:error" Nil (Some "missing");
     exampleBusEvent "fir:like:ok" (Int 42) None;
     exampleBusEvent "fir:form:ok" Nil (Some "name-error")] []
  = Ret [{| part_000_events.Type' := Some "fir:like:ok";
            part_000_events.Target := None;
            part_000_events.Detail := Int 42 |};
         {| part_000_events.Type' := Some "fir:form:ok";
            part_000_events.Target := None;
            part_000_events.Detail := Str "<span>required</span>" |}].
Proof. reflexivity. Qed.


(** ** [Fields] of package [errors] *)

Section fields.
Import errors.

Context {E : Type}.
Variable Error : E -> string.

Lemma MapLoop_messages (l : list (string * option E)) :
  NoDup l.*1 ->
  Forall (fun kv => kv.2 <> None) l ->
  forall m0, exists m,
    MapLoop Error l m0 = Ret m /\
    forall field,
      m !! field
      = match (list_to_map l : gmap string (option E)) !! field with
        | Some err => Error <$> err
        | None => m0 !! field
        end.
Proof.
  induction l as [|[k err] l IH]; intros Hnd Hall m0.
  - exists m0. split; [done|]. intros field.
    change (list_to_map [] : gmap string (option E)) with
      (∅ : gmap string (option E)).
    by rewrite lookup_empty.
  - rewrite fmap_cons in Hnd. apply NoDup_cons in Hnd as [Hk Hnd].
    apply Forall_cons in Hall as [Herr Hall]. cbn in Herr.
    destruct err as [e|]; [|done].
    cbn [MapLoop deref]. rewrite bind_Ret.
    destruct (IH Hnd Hall (<[k := Error e]> m0)) as (m & -> & Hm).
    exists m. split; [done|]. intros field. rewrite Hm.
    cbn [list_to_map foldr]. cbn.
    destruct (decide (k = field)) as [->|Hne].
    + rewrite lookup_insert_eq.
      rewrite (not_elem_of_list_to_map_1 _ _ Hk).
      by rewrite lookup_insert_eq.
    + rewrite !(lookup_insert_ne _ k field) by done. done.
Qed.

(** [Fields.Map] keeps every field, and only those, each with the message
    of its error, provided no field holds a nil error. *)
Theorem Fields_Map_messages (f : gmap string (option E)) :
  (forall field, f !! field <> Some None) ->
  exists m,
    Map Error f = Ret m /\
    forall field, m !! field = f !! field ≫= fmap Error.
Proof.
  intros Hf. unfold Map.
  destruct (MapLoop_messages (map_to_list f)) with (m0 := (∅ : gmap string string))
    as (m & Hm & Hlookup).
  - apply NoDup_fst_map_to_list.
  - apply Forall_forall. intros [k err] Hin%elem_of_map_to_list. cbn.
    intros ->. by apply (Hf k).
  - exists m. split; [done|]. intros field.
    rewrite Hlookup, list_to_map_to_list.
    destruct (f !! field) as [err|]; [done|]. apply lookup_empty.
Qed.

(** A field that holds a nil error makes [Fields.Map] panic. *)
Theorem Fields_Map_nil_panics (f : gmap string (option E)) field :
  f !! field = Some None ->
  Map Error f = Panic "invalid memory address or nil pointer dereference".
Proof.
  intros Hin%elem_of_map_to_list. unfold Map.
  generalize (∅ : gmap string string).
  induction (map_to_list f) as [|[k err] l IH]; intros m0.
  - by apply not_elem_of_nil in Hin.
  - cbn [MapLoop]. destruct err as [e|]; [|done].
    cbn [deref]. rewrite bind_Ret. apply IH.
    apply elem_of_cons in Hin as [[=]|Hin]; done.
Qed.

End fields.

Lemma Fields_Map_messages_witness :
  let f : gmap string (option string) :=
    {[ "name" := Some "required"; "email" := Some "invalid" ]} in
  exists m,
    errors.Map exampleError f = Ret m /\
    forall field, m !! field = f !! field ≫= fmap exampleError.
Proof.
  intros f. apply (Fields_Map_messages exampleError f).
  intros field. unfold f.
  destruct (decide (field = "name")) as [->|Hn]; [by vm_compute|].
  destruct (decide (field = "email")) as [->|He]; [by vm_compute|].
  rewrite lookup_insert_ne by done. by rewrite lookup_singleton_ne.
Defined.

Lemma Fields_Map_nil_panics_witness :
  errors.Map exampleError ({[ "name" := None ]} : gmap string (option string))
  = Panic "invalid memory address or nil pointer dereference".
Proof.
  apply (Fields_Map_nil_panics exampleError {[ "name" := None ]} "name").
  reflexivity.
Defined.

Lemma AddFile_keeps_bindings_witness :
  let b := {| dom.id := "route"; dom.tmpl := None;
              dom.eventTemplates := {[ "like:ok" := {["-"]} ]} |} in
  "-" ∈ dom.TemplateNames
          (dom.AddFile b (inl [[attr "@fir:like:ok::count"]])).1 "like:ok".
Proof.
  intros b.
  apply (AddFile_keeps_bindings b (inl [[attr "@fir:like:ok::count"]])
           "like:ok" "-").
  vm_compute. apply elem_of_cons. by left.
Defined.

(** ** A bus event without a target *)

Section nil_target.
Import fir.

Variable minify : string -> string + error.
Variable newRouteDOMContext : RouteContext -> gmap string any -> any.

(** A bus event in a state other than ok that has no target, on a key
    bound to the no-fragment name alone: the first loop of [trackErrors]
    dereferences the nil target of the candidate, the render path panics
    and the cache is as it was. *)
Theorem no_fragment_nil_target_panics ctx ev id sid prev :
  pubsub.ID ev = Some id ->
  pubsub.SessionID ev = Some sid ->
  loadPrevErrors (cache (ctx_route ctx)) sid = Ret prev ->
  dom.eventTemplates (bindings (ctx_route ctx))
    !! (id +:+ ":" +:+ pubsub.State ev) = Some {["-"]} ->
  pubsub.State ev <> eventstate.OK ->
  pubsub.Target ev = None ->
  returned (renderDOMEvents minify newRouteDOMContext ctx ev)
  = Panic "invalid memory address or nil pointer dereference" /\
  cache_after (renderDOMEvents minify newRouteDOMContext ctx ev)
  = cache (ctx_route ctx).
Proof.
  intros Hid Hsid Hprev Hkey Hst%String.eqb_neq Htg.
  rewrite (renderDOMEvents_unfold minify newRouteDOMContext ctx ev id
             [rawEvent id ev (id +:+ ":" +:+ pubsub.State ev)]); [|done|].
  2:{ unfold dom.TemplateNames. rewrite Hkey. cbn [default from_option].
      unfold Datatypes.id. rewrite elements_singleton.
      cbn [renderTemplates]. unfold renderTemplate.
      change (String.eqb "-" "-") with true. cbn match.
      rewrite Hid. by cbn. }
  unfold trackErrors. rewrite Hsid. cbn [deref]. rewrite Hprev, bind_Ret.
  cbn [setNewErrors rawEvent dom.State dom.Type' dom.Target].
  rewrite Hst, Htg. by cbn.
Qed.

End nil_target.

Lemma no_fragment_nil_target_panics_witness :
  let ctx := exampleCtx {[ "form:error" := {["-"]} ]} None ∅ in
  let ev := exampleEvent "form" eventstate.Error None (Str "bad") in
  fir.returned (fir.renderDOMEvents exampleMinify exampleDOMContext ctx ev)
  = Panic "invalid memory address or nil pointer dereference" /\
  fir.cache_after (fir.renderDOMEvents exampleMinify exampleDOMContext ctx ev)
  = fir.cache (fir.ctx_route ctx).
Proof.
  intros ctx ev.
  apply (no_fragment_nil_target_panics exampleMinify exampleDOMContext ctx ev
           "form" "session-1" ∅);
    [reflexivity | reflexivity | reflexivity | reflexivity | discriminate
    | reflexivity].
Defined.
